(** * fastify-api-key: a shallow embedding of the guard pipeline

    The development follows the layout of the TypeScript sources:
    [utils.ts] (scope predicates and the timing-safe comparison),
    [validators.ts] ([validateScopes]), [extractors.ts] ([extractApiKey]),
    [errors.ts] (the error classes) and [plugin.ts] (the guard).

    JavaScript strings are sequences of UTF-16 code units; they are
    modelled as lists of numbers below 2^16, so that [length], [slice],
    [startsWith], [trim] and the UTF-8 encoding done by [Buffer.from] mean
    what they mean in the language. *)

From Stdlib Require Import NArith ZArith String Ascii List Lia.
From stdpp Require Import base option list gmap.

Local Open Scope N_scope.

(** ** JavaScript strings *)

Module JsString.

Definition codeunit := N.
Definition jsstring := list codeunit.

(** A JavaScript string holds code units only: numbers below 2^16. *)
Definition is_jsstring (s : jsstring) : Prop := Forall (fun u => u < 65536) s.

(** The string written by an ASCII literal of the source. *)
Definition js (s : string) : jsstring :=
  List.map N_of_ascii (list_ascii_of_string s).

(** A string is truthy when it is not empty. *)
Definition truthy (s : jsstring) : bool :=
  match s with [] => false | _ :: _ => true end.

(** ECMAScript WhiteSpace and LineTerminator code points, the ones
    [String.prototype.trim] removes. *)
Definition isWhiteSpace (u : codeunit) : bool :=
  (u =? 0x09) || (u =? 0x0A) || (u =? 0x0B) || (u =? 0x0C) || (u =? 0x0D)
  || (u =? 0x20) || (u =? 0xA0) || (u =? 0x1680)
  || ((0x2000 <=? u) && (u <=? 0x200A))
  || (u =? 0x2028) || (u =? 0x2029) || (u =? 0x202F) || (u =? 0x205F)
  || (u =? 0x3000) || (u =? 0xFEFF).

Fixpoint trimStart (s : jsstring) : jsstring :=
  match s with
  | [] => []
  | u :: s' => if isWhiteSpace u then trimStart s' else s
  end.

Definition trimEnd (s : jsstring) : jsstring := rev (trimStart (rev s)).

Definition trim (s : jsstring) : jsstring := trimEnd (trimStart s).

(** [value.startsWith(prefix)] *)
Fixpoint startsWith (value prefix : jsstring) {struct prefix} : bool :=
  match prefix with
  | [] => true
  | p :: prefix' =>
      match value with
      | [] => false
      | v :: value' => if v =? p then startsWith value' prefix' else false
      end
  end.

(** [value.slice(start)] for a start index within [0, 2^53). *)
Definition slice (value : jsstring) (start : nat) : jsstring := drop start value.

(** [parts.join(sep)] *)
Fixpoint join (parts : list jsstring) (sep : jsstring) : jsstring :=
  match parts with
  | [] => []
  | [p] => p
  | p :: rest => p ++ sep ++ join rest sep
  end.

End JsString.
Import JsString.

(** ** Values of unknown type

    Query parameters, body fields and metadata entries have the TypeScript
    type [unknown], and what a header or a cookie holds is typed as a
    string but read without a check. The code asks of such a value whether
    it is a string, whether it is an array (whose first element it then
    reads) and whether it is truthy; so objects and functions, whose
    contents it never reads, are one case. *)
#[local] Set Warnings "-register-all".
Inductive JsValue : Type :=
| JsUndefined
| JsNull
| JsBoolean (b : bool)
| JsNumber (z : Z)
| JsString (s : jsstring)
| JsArray (items : list JsValue)
| JsObject.

Definition typeof_string (v : JsValue) : bool :=
  match v with JsString _ => true | _ => false end.

(** [!!v]: the values that count as true in a condition. *)
Definition toBoolean (v : JsValue) : bool :=
  match v with
  | JsUndefined | JsNull => false
  | JsBoolean b => b
  | JsNumber z => negb (z =? 0)%Z
  | JsString s => truthy s
  | JsArray _ | JsObject => true
  end.

(** ** utils.ts: scope predicates *)

(** [provided.includes(scope)]: a left-to-right scan with string equality. *)
Fixpoint includes (provided : list jsstring) (scope : jsstring) : bool :=
  match provided with
  | [] => false
  | s :: rest => if decide (s = scope) then true else includes rest scope
  end.

(** [required.every((scope) => provided.includes(scope))] *)
Definition hasAllScopes (provided required : list jsstring) : bool :=
  forallb (fun scope => includes provided scope) required.

(** [required.some((scope) => provided.includes(scope))] *)
Definition hasAnyScope (provided required : list jsstring) : bool :=
  existsb (fun scope => includes provided scope) required.

(** ** utils.ts: the timing-safe comparison *)

Module Utf8.

Definition isHighSurrogate (u : codeunit) : bool := (0xD800 <=? u) && (u <=? 0xDBFF).
Definition isLowSurrogate (u : codeunit) : bool := (0xDC00 <=? u) && (u <=? 0xDFFF).

(** The code point written by a surrogate pair. *)
Definition codePoint (hi lo : codeunit) : N :=
  0x10000 + (hi - 0xD800) * 0x400 + (lo - 0xDC00).

(** U+FFFD, which stands for an unpaired surrogate. *)
Definition replacement : N := 0xFFFD.

(** The UTF-8 bytes of one code point. *)
Definition encode (cp : N) : list N :=
  if cp <? 0x80 then [cp]
  else if cp <? 0x800 then [0xC0 + cp / 64; 0x80 + cp mod 64]
  else if cp <? 0x10000 then
    [0xE0 + cp / 4096; 0x80 + (cp / 64) mod 64; 0x80 + cp mod 64]
  else
    [0xF0 + cp / 262144; 0x80 + (cp / 4096) mod 64;
     0x80 + (cp / 64) mod 64; 0x80 + cp mod 64].

(** [Buffer.from(s)]: the UTF-8 encoding of the string, a surrogate
    pair giving one four-byte sequence and an unpaired surrogate the
    three bytes of U+FFFD. *)
Fixpoint Buffer_from (s : jsstring) : list N :=
  match s with
  | [] => []
  | u :: rest =>
      if isHighSurrogate u then
        match rest with
        | v :: rest' =>
            if isLowSurrogate v then encode (codePoint u v) ++ Buffer_from rest'
            else encode replacement ++ Buffer_from rest
        | [] => encode replacement
        end
      else if isLowSurrogate u then encode replacement ++ Buffer_from rest
      else encode u ++ Buffer_from rest
  end.

(** [s.toWellFormed()]: the string with every unpaired surrogate
    replaced by U+FFFD. *)
Fixpoint toWellFormed (s : jsstring) : jsstring :=
  match s with
  | [] => []
  | u :: rest =>
      if isHighSurrogate u then
        match rest with
        | v :: rest' =>
            if isLowSurrogate v then u :: v :: toWellFormed rest'
            else replacement :: toWellFormed rest
        | [] => [replacement]
        end
      else if isLowSurrogate u then replacement :: toWellFormed rest
      else u :: toWellFormed rest
  end.

(** [s.isWellFormed()] *)
Definition isWellFormed (s : jsstring) : Prop := toWellFormed s = s.

(** The code units a UTF-8 byte sequence stands for; used to read an
    encoding back. *)
Fixpoint decode (bs : list N) : jsstring :=
  match bs with
  | [] => []
  | b0 :: t0 =>
      if b0 <? 0x80 then b0 :: decode t0
      else
        match t0 with
        | [] => []
        | b1 :: t1 =>
            if b0 <? 0xE0 then ((b0 - 0xC0) * 64 + (b1 - 0x80)) :: decode t1
            else
              match t1 with
              | [] => []
              | b2 :: t2 =>
                  if b0 <? 0xF0 then
                    ((b0 - 0xE0) * 4096 + (b1 - 0x80) * 64 + (b2 - 0x80)) :: decode t2
                  else
                    match t2 with
                    | [] => []
                    | b3 :: t3 =>
                        let cp := (b0 - 0xF0) * 262144 + (b1 - 0x80) * 4096
                                  + (b2 - 0x80) * 64 + (b3 - 0x80) in
                        (0xD800 + (cp - 0x10000) / 0x400)
                          :: (0xDC00 + (cp - 0x10000) mod 0x400) :: decode t3
                    end
              end
        end
  end.

End Utf8.

(** [crypto.timingSafeEqual(a, b)]: throws a RangeError ([None]) when the
    byte lengths differ, otherwise tells whether the buffers are equal. *)
Definition timingSafeEqual (a b : list N) : option bool :=
  if decide (length a = length b) then Some (bool_decide (a = b)) else None.

(** [None] stands for an exception escaping the function. *)
Definition timingSafeCompare (a b : JsValue) : option bool :=
  match a, b with
  | JsString a, JsString b =>
      let bufA := Utf8.Buffer_from a in
      let bufB := Utf8.Buffer_from b in
      if negb (bool_decide (length bufA = length bufB)) then
        (* Compare anyway to prevent length-based timing leak *)
        _ ← timingSafeEqual bufA bufA;
        Some false
      else timingSafeEqual bufA bufB
  | _, _ => Some false
  end.

(** ** utils.ts: key generation *)

(** The character of a six-bit digit in the URL-safe alphabet
    [A-Z a-z 0-9 - _]. *)
Definition base64urlChar (d : N) : codeunit :=
  if d <? 26 then 0x41 + d
  else if d <? 52 then 0x61 + (d - 26)
  else if d <? 62 then 0x30 + (d - 52)
  else if d =? 62 then 0x2D
  else 0x5F.

(** The characters of that alphabet. *)
Definition isUrlSafe (u : codeunit) : bool :=
  ((0x41 <=? u) && (u <=? 0x5A)) || ((0x61 <=? u) && (u <=? 0x7A))
  || ((0x30 <=? u) && (u <=? 0x39)) || (u =? 0x2D) || (u =? 0x5F).

(** [bytes.toString('base64url')]: three bytes give four characters, a
    last group of one or two bytes gives two or three, without padding. *)
Fixpoint base64url (bytes : list N) : jsstring :=
  match bytes with
  | [] => []
  | [b0] => [base64urlChar (b0 / 4); base64urlChar ((b0 mod 4) * 16)]
  | [b0; b1] =>
      [base64urlChar (b0 / 4);
       base64urlChar ((b0 mod 4) * 16 + b1 / 16);
       base64urlChar ((b1 mod 16) * 4)]
  | b0 :: b1 :: b2 :: rest =>
      base64urlChar (b0 / 4)
        :: base64urlChar ((b0 mod 4) * 16 + b1 / 16)
        :: base64urlChar ((b1 mod 16) * 4 + b2 / 64)
        :: base64urlChar (b2 mod 64)
        :: base64url rest
  end.

(** [crypto.randomBytes(size)]: throws a RangeError ([None]) for a size
    below zero or above 2^31 - 1, and otherwise returns [size] bytes. The
    bytes are those of [entropy], the source the generator draws from. *)
Definition randomBytes (entropy : nat -> N) (size : Z) : option (list N) :=
  if ((0 <=? size) && (size <=? 2147483647))%Z
  then Some (List.map entropy (seq 0 (Z.to_nat size)))
  else None.

(** [Math.ceil(a / b)] for integers [a] and [b > 0]. *)
Definition ceilDiv (a b : Z) : Z := (- ((- a) / b))%Z.

(** [s.slice(0, end)] for an integer [end]: a negative [end] counts from
    the end of the string. *)
Definition sliceTo (s : jsstring) (finish : Z) : jsstring :=
  if (0 <=? finish)%Z then take (Z.to_nat finish) s
  else take (Z.to_nat (Z.of_nat (length s) + finish)) s.

Module GenerateOptions.
Record t := {
  prefix : option jsstring;
  length : option Z
}.
End GenerateOptions.

(** [bytes.toString('base64url')] as a call: it throws ([None]) when the
    string would be longer than [buffer.constants.MAX_STRING_LENGTH],
    which is the platform's (2^29 - 24 on 64-bit builds). *)
Definition toString_base64url (maxStringLength : Z) (bytes : list N) : option jsstring :=
  let encoded := base64url bytes in
  if decide (Z.of_nat (length encoded) ≤ maxStringLength)%Z then Some encoded else None.

(** [length] is an integer here; [None] is an exception of [randomBytes]
    or of [toString]. *)
Definition generateApiKey (maxStringLength : Z) (entropy : nat -> N)
    (options : GenerateOptions.t) : option jsstring :=
  let prefix := default [] (GenerateOptions.prefix options) in
  let length := default 32%Z (GenerateOptions.length options) in
  bytes ← randomBytes entropy (ceilDiv (length * 3) 4);
  encoded ← toString_base64url maxStringLength bytes;
  let key := sliceTo encoded length in
  Some (if truthy prefix then prefix ++ js "_" ++ key else key).

(** ** validators.ts *)

Module ScopeValidationResult.
Record t := {
  valid : bool;
  missing : option (list jsstring)
}.
End ScopeValidationResult.

(** The "all required" block: [Some r] when it returns [r], [None] when
    control falls through to the next statement. *)
Definition checkAllRequired (providedScopes : list jsstring)
    (requiredScopes : option (list jsstring)) : option ScopeValidationResult.t :=
  match requiredScopes with
  | Some ((_ :: _) as required) =>
      if negb (hasAllScopes providedScopes required) then
        let missing := List.filter (fun s => negb (includes providedScopes s)) required in
        Some {| ScopeValidationResult.valid := false;
                ScopeValidationResult.missing := Some missing |}
      else None
  | _ => None
  end.

(** The "any of" block, in the same style. *)
Definition checkAnyOf (providedScopes : list jsstring)
    (anyScopes : option (list jsstring)) : option ScopeValidationResult.t :=
  match anyScopes with
  | Some ((_ :: _) as anyOf) =>
      if negb (hasAnyScope providedScopes anyOf) then
        Some {| ScopeValidationResult.valid := false; ScopeValidationResult.missing := Some anyOf |}
      else None
  | _ => None
  end.

Definition validateScopes (providedScopes : list jsstring)
    (requiredScopes anyScopes : option (list jsstring)) : ScopeValidationResult.t :=
  match checkAllRequired providedScopes requiredScopes with
  | Some r => r
  | None =>
      match checkAnyOf providedScopes anyScopes with
      | Some r => r
      | None => {| ScopeValidationResult.valid := true; ScopeValidationResult.missing := None |}
      end
  end.

(** ** errors.ts *)

Record ApiKeyError := {
  name : jsstring;
  code : jsstring;
  message : jsstring;
  statusCode : Z;
  (* InsufficientScopesError *)
  requiredScopes : option (list jsstring);
  providedScopes : option (list jsstring);
  (* RateLimitExceededError *)
  retryAfter : option Z
}.

(** The base constructor; [statusCode = 401] is its default. *)
Definition new_ApiKeyError (code message : jsstring) (statusCode : option Z) : ApiKeyError :=
  {| name := js "ApiKeyError"; code := code; message := message;
     statusCode := default 401%Z statusCode;
     requiredScopes := None; providedScopes := None; retryAfter := None |}.

Definition set_name (n : jsstring) (e : ApiKeyError) : ApiKeyError :=
  {| name := n; code := code e; message := message e; statusCode := statusCode e;
     requiredScopes := requiredScopes e; providedScopes := providedScopes e;
     retryAfter := retryAfter e |}.

Definition new_MissingApiKeyError : ApiKeyError :=
  set_name (js "MissingApiKeyError")
    (new_ApiKeyError (js "MISSING_API_KEY") (js "API key is required") (Some 401%Z)).

(** [constructor(message = 'Invalid API key')]: the default applies to an
    absent (undefined) argument only. *)
Definition new_InvalidApiKeyError (message : option jsstring) : ApiKeyError :=
  let message := default (js "Invalid API key") message in
  set_name (js "InvalidApiKeyError")
    (new_ApiKeyError (js "INVALID_API_KEY") message (Some 401%Z)).

Definition new_InsufficientScopesError (required provided : list jsstring) : ApiKeyError :=
  let e := new_ApiKeyError (js "INSUFFICIENT_SCOPES")
             (js "Insufficient scopes. Required: " ++ join required (js ", "))
             (Some 403%Z) in
  {| name := js "InsufficientScopesError"; code := code e; message := message e;
     statusCode := statusCode e;
     requiredScopes := Some required; providedScopes := Some provided;
     retryAfter := retryAfter e |}.

Definition new_RateLimitExceededError (retryAfter : Z) : ApiKeyError :=
  let e := new_ApiKeyError (js "RATE_LIMIT_EXCEEDED") (js "Rate limit exceeded")
             (Some 429%Z) in
  {| name := js "RateLimitExceededError"; code := code e; message := message e;
     statusCode := statusCode e;
     requiredScopes := requiredScopes e; providedScopes := providedScopes e;
     retryAfter := Some retryAfter |}.

(** The values a serialised error holds. *)
Inductive JsonValue :=
| JsonString (s : jsstring)
| JsonNumber (z : Z)
| JsonStrings (items : list jsstring).

(** [toJSON()] of the base class: an object, given as its properties in
    the order they are written. *)
Definition ApiKeyError_toJSON (e : ApiKeyError) : list (jsstring * JsonValue) :=
  [ (js "error", JsonString (code e));
    (js "message", JsonString (message e));
    (js "statusCode", JsonNumber (statusCode e)) ].

(** [toJSON()] as an error's class overrides it: the class shows in the
    fields the error has, InsufficientScopesError adding the two scope
    lists to the base object and RateLimitExceededError [retryAfter]. *)
Definition toJSON (e : ApiKeyError) : list (jsstring * JsonValue) :=
  match requiredScopes e, providedScopes e, retryAfter e with
  | Some required, Some provided, _ =>
      ApiKeyError_toJSON e
        ++ [ (js "requiredScopes", JsonStrings required);
             (js "providedScopes", JsonStrings provided) ]
  | _, _, Some seconds =>
      ApiKeyError_toJSON e ++ [ (js "retryAfter", JsonNumber seconds) ]
  | _, _, None => ApiKeyError_toJSON e
  end.

(** The errors the four subclasses construct. *)
Inductive constructed : ApiKeyError -> Prop :=
| constructed_missing : constructed new_MissingApiKeyError
| constructed_invalid message : constructed (new_InvalidApiKeyError message)
| constructed_insufficient required provided :
    constructed (new_InsufficientScopesError required provided)
| constructed_rate_limit retryAfter :
    constructed (new_RateLimitExceededError retryAfter).

(** ** types.ts *)

Inductive SourceType := Header | Query | Body | Cookie.

Module ApiKeySource.
Record t := {
  type : SourceType;
  name : jsstring;
  prefix : option jsstring
}.
End ApiKeySource.

Module RateLimit.
(** Passed through untouched; the spec gives the three fields as integers. *)
Record t := { limit : Z; remaining : Z; reset : Z }.
End RateLimit.

Module ApiKeyValidationResult.
Record t := {
  valid : bool;
  scopes : option (list jsstring);
  rateLimit : option RateLimit.t;
  metadata : option (gmap jsstring JsValue);
  errorMessage : option jsstring
}.
End ApiKeyValidationResult.

Module ApiKeyGuardOptions.
Record t := {
  scopes : option (list jsstring);
  anyScope : option (list jsstring);
  allowAnonymous : option bool
}.
(** The default argument [{}] of the guard factory. *)
Definition empty : t := {| scopes := None; anyScope := None; allowAnonymous := None |}.
End ApiKeyGuardOptions.

Module ApiKeyData.
Record t := {
  key : jsstring;
  scopes : list jsstring;
  rateLimit : option RateLimit.t;
  metadata : gmap jsstring JsValue
}.
End ApiKeyData.

(** ** The request

    A request is one object: the guard assigns [request[decoratorName]]
    and [request.apiKeyScopes] on the object whose [headers], [query],
    [body] and [cookies] a source reads, so the four are told apart from
    the other properties by name only.

    [headers] is an object; [query], [body] and [cookies] follow the casts
    of [extractors.ts] (possibly undefined or null, here [None]; [cookies]
    is there only when a cookie plugin is registered). An object a source
    reads is given by its own properties and by whether it inherits from
    [Object.prototype], as an object literal and the result of [JSON.parse]
    do and an object made by [Object.create(null)] does not; or it is the
    object a guard attached. Own properties are data: the only functions
    to be found on an object are the inherited ones. A body that is a
    string or an array is given by what its indices hold. [decorations]
    holds the other properties of the request; one that is still
    [undefined] is absent from it. *)

Inductive RequestObject :=
| ParsedObject (plain : bool) (own : gmap jsstring JsValue)
| AttachedData (data : ApiKeyData.t).

(** The property names of [Object.prototype]: its methods, and the
    accessor [__proto__]. *)
Definition Object_prototype : list jsstring :=
  [ js "constructor"; js "__defineGetter__"; js "__defineSetter__";
    js "hasOwnProperty"; js "__lookupGetter__"; js "__lookupSetter__";
    js "isPrototypeOf"; js "propertyIsEnumerable"; js "toString";
    js "valueOf"; js "__proto__"; js "toLocaleString" ].

(** The object literal of step 4 of the guard, as a source reads it. *)
Definition ApiKeyData_properties (data : ApiKeyData.t) : gmap jsstring JsValue :=
  {[ js "key" := JsString (ApiKeyData.key data);
     js "scopes" := JsArray (JsString <$> ApiKeyData.scopes data);
     js "rateLimit" := match ApiKeyData.rateLimit data with
                       | Some _ => JsObject
                       | None => JsUndefined
                       end;
     js "metadata" := JsObject ]}.

(** [object[name]]: the own property, else the one inherited from
    [Object.prototype] (a function, or for [__proto__] the prototype
    itself), else [undefined]. *)
Definition getProperty (object : RequestObject) (name : jsstring) : JsValue :=
  let (plain, own) :=
    match object with
    | ParsedObject plain own => (plain, own)
    | AttachedData data => (true, ApiKeyData_properties data)
    end in
  match own !! name with
  | Some v => v
  | None => if plain && bool_decide (name ∈ Object_prototype) then JsObject else JsUndefined
  end.

Inductive Decorated :=
| DecoratedApiKeyData (data : ApiKeyData.t)
| DecoratedScopes (scopes : list jsstring).

(** What reading a property of the request gives. *)
Inductive PropertyValue :=
| PropertyUndefined
| PropertyObject (object : RequestObject)
| PropertyScopes (scopes : list jsstring).

Module FastifyRequest.
Record t := {
  headers : RequestObject;
  query : option RequestObject;
  body : option RequestObject;
  cookies : option RequestObject;
  decorations : gmap jsstring Decorated
}.

(** [request[property]] *)
Definition get (request : t) (property : jsstring) : PropertyValue :=
  if decide (property = js "headers") then PropertyObject (headers request)
  else if decide (property = js "query") then
    from_option PropertyObject PropertyUndefined (query request)
  else if decide (property = js "body") then
    from_option PropertyObject PropertyUndefined (body request)
  else if decide (property = js "cookies") then
    from_option PropertyObject PropertyUndefined (cookies request)
  else
    match decorations request !! property with
    | Some (DecoratedApiKeyData data) => PropertyObject (AttachedData data)
    | Some (DecoratedScopes scopes) => PropertyScopes scopes
    | None => PropertyUndefined
    end.

(** [request[property] = apiKeyData] *)
Definition set (property : jsstring) (data : ApiKeyData.t) (request : t) : t :=
  if decide (property = js "headers") then
    {| headers := AttachedData data; query := query request; body := body request;
       cookies := cookies request; decorations := decorations request |}
  else if decide (property = js "query") then
    {| headers := headers request; query := Some (AttachedData data);
       body := body request; cookies := cookies request;
       decorations := decorations request |}
  else if decide (property = js "body") then
    {| headers := headers request; query := query request;
       body := Some (AttachedData data); cookies := cookies request;
       decorations := decorations request |}
  else if decide (property = js "cookies") then
    {| headers := headers request; query := query request; body := body request;
       cookies := Some (AttachedData data); decorations := decorations request |}
  else
    {| headers := headers request; query := query request; body := body request;
       cookies := cookies request;
       decorations := <[property := DecoratedApiKeyData data]> (decorations request) |}.

(** [request.apiKeyScopes = scopes] *)
Definition setApiKeyScopes (scopes : list jsstring) (request : t) : t :=
  {| headers := headers request; query := query request; body := body request;
     cookies := cookies request;
     decorations := <[js "apiKeyScopes" := DecoratedScopes scopes]> (decorations request) |}.
End FastifyRequest.

(** ** Callbacks

    The validator, the hook and the error handler are supplied by the
    application. A call to one of them either returns or throws; what it
    throws is any value, an [ApiKeyError] included; the platform throws a
    [TypeError] where the code calls a method a value does not have. The
    callbacks are modelled by that outcome, as functions of their
    arguments: a callback that itself assigns to the request lies outside
    this model, and so does the reply object, which only the error handler
    uses. *)

Inductive Thrown :=
| ThrownApiKeyError (error : ApiKeyError)
| ThrownTypeError
| ThrownValue (v : JsValue).

Inductive Completion (A : Type) :=
| Normal (a : A)
| Throw (t : Thrown).
Arguments Normal {A} a.
Arguments Throw {A} t.

Definition ApiKeyValidator :=
  jsstring -> FastifyRequest.t -> Completion ApiKeyValidationResult.t.
Definition ApiKeyErrorHandler :=
  ApiKeyError -> FastifyRequest.t -> Completion unit.
Definition ApiKeyHook :=
  jsstring -> ApiKeyValidationResult.t -> FastifyRequest.t -> Completion unit.

Module FastifyApiKeyOptions.
Record t := {
  sources : option (list ApiKeySource.t);
  validate : ApiKeyValidator;
  errorHandler : option ApiKeyErrorHandler;
  decoratorName : option jsstring;
  allowAnonymous : option bool;
  onValidation : option ApiKeyHook;
  timingSafe : option bool
}.
End FastifyApiKeyOptions.

(** ** The guard's effects

    A guard reads and writes its request and calls the application's
    callbacks in sequence; it ends by returning or by throwing. The state
    threaded through it is the request and the list of callback calls made
    so far, oldest first. *)

Inductive Call :=
| CallValidate (key : jsstring)
| CallOnValidation (key : jsstring) (result : ApiKeyValidationResult.t)
| CallErrorHandler (error : ApiKeyError).

Record GuardState := {
  st_request : FastifyRequest.t;
  st_calls : list Call
}.

Definition Guard (A : Type) : Type := GuardState -> Completion A * GuardState.

Definition ret {A} (a : A) : Guard A := fun st => (Normal a, st).

Definition throw {A} (t : Thrown) : Guard A := fun st => (Throw t, st).

Definition bind {A B} (m : Guard A) (k : A -> Guard B) : Guard B :=
  fun st =>
    match m st with
    | (Normal a, st') => k a st'
    | (Throw t, st') => (Throw t, st')
    end.

Notation "'let*' x ':=' m 'in' k" := (bind m (fun x => k))
  (at level 10, x name, m at level 100, k at level 200).
Notation "m ';;' k" := (bind m (fun _ => k))
  (at level 100, k at level 200, right associativity).

Definition getRequest : Guard FastifyRequest.t :=
  fun st => (Normal (st_request st), st).

(** A call of the code's own: what it returns or throws, nothing else. *)
Definition call {A} (outcome : Completion A) : Guard A :=
  fun st => (outcome, st).

Definition setProperty (property : jsstring) (data : ApiKeyData.t) : Guard unit :=
  fun st => (Normal tt,
             {| st_request := FastifyRequest.set property data (st_request st);
                st_calls := st_calls st |}).

Definition setApiKeyScopes (scopes : list jsstring) : Guard unit :=
  fun st => (Normal tt,
             {| st_request := FastifyRequest.setApiKeyScopes scopes (st_request st);
                st_calls := st_calls st |}).

(** [await callback(...)]: the call is recorded, then its outcome is the
    outcome of the [await]. *)
Definition await {A} (call : Call) (outcome : FastifyRequest.t -> Completion A) : Guard A :=
  fun st =>
    (outcome (st_request st),
     {| st_request := st_request st; st_calls := st_calls st ++ [call] |}).

(** ** The server instance

    What [decorateRequest] and [decorate] keep of an instance: the names
    already declared. Declaring a name twice throws
    FST_ERR_DEC_ALREADY_PRESENT ([None]). *)

Module FastifyInstance.
Record t := {
  requestDecorators : gset jsstring;
  instanceDecorators : gset jsstring
}.

Definition decorateRequest (name : jsstring) (fastify : t) : option t :=
  if decide (name ∈ requestDecorators fastify) then None
  else Some {| requestDecorators := {[name]} ∪ requestDecorators fastify;
               instanceDecorators := instanceDecorators fastify |}.

Definition decorate (name : jsstring) (fastify : t) : option t :=
  if decide (name ∈ instanceDecorators fastify) then None
  else Some {| requestDecorators := requestDecorators fastify;
               instanceDecorators := {[name]} ∪ instanceDecorators fastify |}.
End FastifyInstance.

(** ** extractors.ts and plugin.ts

    [String.prototype.toLowerCase] is the platform's; nothing below
    depends on what it computes. *)

Section Plugin.

Variable toLowerCase : jsstring -> jsstring.

(** The [switch] of [extractFromSource]: the value read from the place
    the source describes. Only query and body check that it is a string. *)
Definition sourceValue (request : FastifyRequest.t) (source : ApiKeySource.t) : JsValue :=
  match ApiKeySource.type source with
  | Header =>
      let headerValue :=
        getProperty (FastifyRequest.headers request)
          (toLowerCase (ApiKeySource.name source)) in
      match headerValue with
      | JsArray items => default JsUndefined (head items)
      | _ => headerValue
      end
  | Query =>
      match FastifyRequest.query request with
      | Some query =>
          if typeof_string (getProperty query (ApiKeySource.name source))
          then getProperty query (ApiKeySource.name source)
          else JsUndefined
      | None => JsUndefined
      end
  | Body =>
      match FastifyRequest.body request with
      | Some body =>
          if typeof_string (getProperty body (ApiKeySource.name source))
          then getProperty body (ApiKeySource.name source)
          else JsUndefined
      | None => JsUndefined
      end
  | Cookie =>
      match FastifyRequest.cookies request with
      | Some cookies => getProperty cookies (ApiKeySource.name source)
      | None => JsUndefined
      end
  end.

(** [Normal None] is [null]; [Normal (Some [])] is the empty string, which
    a value made of whitespace only is trimmed to. A truthy value that is
    not a string has neither [startsWith] nor [trim]: calling the one or
    the other throws a [TypeError]. *)
Definition extractFromSource (request : FastifyRequest.t) (source : ApiKeySource.t)
    : Completion (option jsstring) :=
  let value := sourceValue request source in
  if negb (toBoolean value) then Normal None
  else
    match value with
    | JsString value =>
        (* Remove prefix if specified *)
        match ApiKeySource.prefix source with
        | Some prefix =>
            if truthy prefix && startsWith value prefix
            then Normal (Some (trim (slice value (length prefix))))
            else Normal (Some (trim value))
        | None => Normal (Some (trim value))
        end
    | _ => Throw ThrownTypeError
    end.

Fixpoint extractApiKey (request : FastifyRequest.t) (sources : list ApiKeySource.t)
    : Completion (option jsstring) :=
  match sources with
  | [] => Normal None
  | source :: rest =>
      match extractFromSource request source with
      | Normal (Some key) =>
          if truthy key then Normal (Some key) else extractApiKey request rest
      | Normal None => extractApiKey request rest
      | Throw t => Throw t
      end
  end.

Definition DEFAULT_SOURCES : list ApiKeySource.t :=
  [ {| ApiKeySource.type := Header; ApiKeySource.name := js "X-API-Key";
       ApiKeySource.prefix := None |} ].

Section Registered.

Variable options : FastifyApiKeyOptions.t.

(** The destructured options, with their defaults. *)
Definition sources := default DEFAULT_SOURCES (FastifyApiKeyOptions.sources options).
Definition validate := FastifyApiKeyOptions.validate options.
Definition errorHandler := FastifyApiKeyOptions.errorHandler options.
Definition decoratorName := default (js "apiKey") (FastifyApiKeyOptions.decoratorName options).
Definition allowAnonymous := default false (FastifyApiKeyOptions.allowAnonymous options).
Definition onValidation := FastifyApiKeyOptions.onValidation options.
Definition timingSafe := default true (FastifyApiKeyOptions.timingSafe options).

(** The block repeated at each raise point: hand the error to the
    custom handler and return, or throw it. *)
Definition handleOrThrow (error : ApiKeyError) : Guard unit :=
  match errorHandler with
  | Some errorHandler =>
      await (CallErrorHandler error) (errorHandler error) ;;
      ret tt
  | None => throw (ThrownApiKeyError error)
  end.

(** [guardOptions.allowAnonymous ?? allowAnonymous] *)
Definition shouldAllowAnonymous (guardOptions : ApiKeyGuardOptions.t) : bool :=
  default allowAnonymous (ApiKeyGuardOptions.allowAnonymous guardOptions).

Definition createGuard (guardOptions : ApiKeyGuardOptions.t) : Guard unit :=
  let shouldAllowAnonymous := shouldAllowAnonymous guardOptions in
  (* 1. Extract API key *)
  let* request := getRequest in
  let* key := call (extractApiKey request sources) in
  match key with
  | None | Some [] =>
      if shouldAllowAnonymous then ret tt
      else handleOrThrow new_MissingApiKeyError
  | Some key =>
      (* 2. Validate API key *)
      let* result := await (CallValidate key) (validate key) in
      (* Call validation hook *)
      match onValidation with
      | Some onValidation =>
          await (CallOnValidation key result) (onValidation key result)
      | None => ret tt
      end ;;
      if negb (ApiKeyValidationResult.valid result) then
        if shouldAllowAnonymous then ret tt
        else handleOrThrow
               (new_InvalidApiKeyError (ApiKeyValidationResult.errorMessage result))
      else
        (* 3. Validate scopes *)
        let providedScopes := default [] (ApiKeyValidationResult.scopes result) in
        let scopeResult :=
          validateScopes providedScopes
            (ApiKeyGuardOptions.scopes guardOptions)
            (ApiKeyGuardOptions.anyScope guardOptions) in
        if negb (ScopeValidationResult.valid scopeResult) then
          handleOrThrow
            (new_InsufficientScopesError
               (default (default [] (ApiKeyGuardOptions.anyScope guardOptions))
                  (ApiKeyGuardOptions.scopes guardOptions))
               providedScopes)
        else
          (* 4. Populate request with API key data *)
          let apiKeyData :=
            {| ApiKeyData.key := if timingSafe then js "[REDACTED]" else key;
               ApiKeyData.scopes := providedScopes;
               ApiKeyData.rateLimit := ApiKeyValidationResult.rateLimit result;
               ApiKeyData.metadata :=
                 default ∅ (ApiKeyValidationResult.metadata result) |} in
          setProperty decoratorName apiKeyData ;;
          setApiKeyScopes providedScopes
  end.

(** The alias [requireApiKey(scopes)]. *)
Definition requireApiKey (scopes : option (list jsstring)) : Guard unit :=
  createGuard {| ApiKeyGuardOptions.scopes := scopes;
                 ApiKeyGuardOptions.anyScope := None;
                 ApiKeyGuardOptions.allowAnonymous := None |}.

(** Registration: the two request decorators, then the two instance
    decorators holding [createGuard] and [requireApiKey]. *)
Definition fastifyApiKeyPlugin (fastify : FastifyInstance.t) : option FastifyInstance.t :=
  (* Decorate request with undefined as initial value *)
  fastify ← FastifyInstance.decorateRequest decoratorName fastify;
  fastify ← FastifyInstance.decorateRequest (js "apiKeyScopes") fastify;
  (* Decorate instance *)
  fastify ← FastifyInstance.decorate (js "apiKey") fastify;
  FastifyInstance.decorate (js "requireApiKey") fastify.

End Registered.

(** ** Reading an extraction

    The vocabulary the statements about extraction are written in. *)

(** The code points that are white space or line terminators in
    ECMAScript. *)
Definition whitespace : list N :=
  [ 0x09; 0x0A; 0x0B; 0x0C; 0x0D; 0x20; 0xA0; 0x1680;
    0x2000; 0x2001; 0x2002; 0x2003; 0x2004; 0x2005; 0x2006; 0x2007; 0x2008;
    0x2009; 0x200A; 0x2028; 0x2029; 0x202F; 0x205F; 0x3000; 0xFEFF ].

(** "[key] is [value] with the surrounding whitespace trimmed": [value] is
    [key] between two runs of whitespace, and [key] neither starts nor
    ends with whitespace. *)
Definition trimmed (value key : jsstring) : Prop :=
  ∃ before after,
    value = before ++ key ++ after
    ∧ Forall (λ u, u ∈ whitespace) before
    ∧ Forall (λ u, u ∈ whitespace) after
    ∧ (∀ u, head key = Some u → u ∉ whitespace)
    ∧ (∀ u, last key = Some u → u ∉ whitespace).

(** "The source yields no key": it returns [null] or the empty string. *)
Definition skipped (request : FastifyRequest.t) (source : ApiKeySource.t) : Prop :=
  extractFromSource request source = Normal None
  ∨ extractFromSource request source = Normal (Some []).

(** The properties of the request a source reads. *)
Definition readBySources : list jsstring :=
  [js "headers"; js "query"; js "body"; js "cookies"].

(** ** Reading an invocation

    The vocabulary the statements about the guard are written in. *)

(** One invocation of a guard on a request, no callback called yet. *)
Definition invoke (guard : Guard unit) (request : FastifyRequest.t)
    : Completion unit * GuardState :=
  guard {| st_request := request; st_calls := [] |}.

(** The hook, when one is configured, returns. *)
Definition hookReturns (options : FastifyApiKeyOptions.t) (key : jsstring)
    (result : ApiKeyValidationResult.t) (request : FastifyRequest.t) : Prop :=
  match onValidation options with
  | Some hook => hook key result request = Normal tt
  | None => True
  end.

(** The callbacks called up to and including the hook. *)
Definition validationCalls (options : FastifyApiKeyOptions.t) (key : jsstring)
    (result : ApiKeyValidationResult.t) : list Call :=
  CallValidate key
    :: match onValidation options with
       | Some _ => [CallOnValidation key result]
       | None => []
       end.

(** "The guard raises [error], or hands it to the custom error handler":
    with a handler configured, the handler is called with [error] after
    the calls [before], the request is left as it was and the guard ends
    as the handler does; with none, [error] is thrown. *)
Definition raises (options : FastifyApiKeyOptions.t) (error : ApiKeyError)
    (request : FastifyRequest.t) (before : list Call)
    (outcome : Completion unit * GuardState) : Prop :=
  match errorHandler options with
  | Some handler =>
      outcome.1 = handler error request
      ∧ outcome.2 = {| st_request := request; st_calls := before ++ [CallErrorHandler error] |}
  | None =>
      outcome = (Throw (ThrownApiKeyError error),
                 {| st_request := request; st_calls := before |})
  end.

(** "The guard lets the request through, nothing attached": it returns
    and the request is as it was. *)
Definition passesThrough (request : FastifyRequest.t) (before : list Call)
    (outcome : Completion unit * GuardState) : Prop :=
  outcome = (Normal tt, {| st_request := request; st_calls := before |}).

(** "Extraction succeeded, the validator returned [valid: true] and scope
    validation passed": the three steps of the pipeline were reached, the
    hook between the second and the third having returned, and each
    succeeded. *)
Definition accepted (options : FastifyApiKeyOptions.t) (guardOptions : ApiKeyGuardOptions.t)
    (request : FastifyRequest.t) (key : jsstring) (result : ApiKeyValidationResult.t) : Prop :=
  extractApiKey request (sources options) = Normal (Some key)
  ∧ validate options key request = Normal result
  ∧ hookReturns options key result request
  ∧ ApiKeyValidationResult.valid result = true
  ∧ ScopeValidationResult.valid (validateScopes (default [] (ApiKeyValidationResult.scopes result))
                (ApiKeyGuardOptions.scopes guardOptions)
                (ApiKeyGuardOptions.anyScope guardOptions)) = true.

(** The authentication context step 4 builds. *)
Definition contextOf (options : FastifyApiKeyOptions.t) (key : jsstring)
    (result : ApiKeyValidationResult.t) : ApiKeyData.t :=
  {| ApiKeyData.key :=
       if default true (FastifyApiKeyOptions.timingSafe options)
       then js "[REDACTED]" else key;
     ApiKeyData.scopes :=
       match ApiKeyValidationResult.scopes result with
       | Some scopes => scopes
       | None => []
       end;
     ApiKeyData.rateLimit := ApiKeyValidationResult.rateLimit result;
     ApiKeyData.metadata :=
       match ApiKeyValidationResult.metadata result with
       | Some metadata => metadata
       | None => ∅
       end |}.

(** ** Sample data

    The requests, options and routes the statements below are tried on;
    they follow the repository's tests. *)

(** [toLowerCase] on strings of ASCII characters. *)
Definition asciiLowerCase (s : jsstring) : jsstring :=
  List.map (fun u => if (0x41 <=? u) && (u <=? 0x5A) then u + 0x20 else u) s.

Definition sampleRequest : FastifyRequest.t :=
  {| FastifyRequest.headers :=
       ParsedObject true
         {[ js "x-api-key" := JsString (js "rw-only-key");
            js "authorization" := JsString (js "ApiKey my-secret") ]};
     FastifyRequest.query := Some (ParsedObject true ∅);
     FastifyRequest.body := None;
     FastifyRequest.cookies := None;
     FastifyRequest.decorations := ∅ |}.

(** A request whose Authorization header has whitespace around the key. *)
Definition paddedRequest : FastifyRequest.t :=
  {| FastifyRequest.headers :=
       ParsedObject true {[ js "authorization" := JsString (js "ApiKey   my-secret  ") ]};
     FastifyRequest.query := Some (ParsedObject true ∅);
     FastifyRequest.body := None;
     FastifyRequest.cookies := None;
     FastifyRequest.decorations := ∅ |}.

(** A request with no key anywhere. *)
Definition bareRequest : FastifyRequest.t :=
  {| FastifyRequest.headers := ParsedObject true ∅;
     FastifyRequest.query := Some (ParsedObject true ∅);
     FastifyRequest.body := None;
     FastifyRequest.cookies := None;
     FastifyRequest.decorations := ∅ |}.

Definition sampleResult (valid : bool) (scopes : list jsstring) : ApiKeyValidationResult.t :=
  {| ApiKeyValidationResult.valid := valid;
     ApiKeyValidationResult.scopes := Some scopes;
     ApiKeyValidationResult.rateLimit := None;
     ApiKeyValidationResult.metadata := None;
     ApiKeyValidationResult.errorMessage := None |}.

(** [{ validate: async () => result }], every other option left out. *)
Definition sampleOptions (result : ApiKeyValidationResult.t) : FastifyApiKeyOptions.t :=
  {| FastifyApiKeyOptions.sources := None;
     FastifyApiKeyOptions.validate := fun _ _ => Normal result;
     FastifyApiKeyOptions.errorHandler := None;
     FastifyApiKeyOptions.decoratorName := None;
     FastifyApiKeyOptions.allowAnonymous := None;
     FastifyApiKeyOptions.onValidation := None;
     FastifyApiKeyOptions.timingSafe := None |}.

(** [{ validate: async () => result, decoratorName: name }] *)
Definition namedOptions (name : jsstring) (result : ApiKeyValidationResult.t)
    : FastifyApiKeyOptions.t :=
  {| FastifyApiKeyOptions.sources := None;
     FastifyApiKeyOptions.validate := fun _ _ => Normal result;
     FastifyApiKeyOptions.errorHandler := None;
     FastifyApiKeyOptions.decoratorName := Some name;
     FastifyApiKeyOptions.allowAnonymous := None;
     FastifyApiKeyOptions.onValidation := None;
     FastifyApiKeyOptions.timingSafe := None |}.

(** A source with nothing but a type and a name. *)
Definition sourceNamed (type : SourceType) (name : jsstring) : ApiKeySource.t :=
  {| ApiKeySource.type := type; ApiKeySource.name := name; ApiKeySource.prefix := None |}.

(** [{ scopes: ['read', 'write'], anyScope: ['admin', 'superuser'] }] *)
Definition adminWriteRoute : ApiKeyGuardOptions.t :=
  {| ApiKeyGuardOptions.scopes := Some [js "read"; js "write"];
     ApiKeyGuardOptions.anyScope := Some [js "admin"; js "superuser"];
     ApiKeyGuardOptions.allowAnonymous := None |}.

(** A server with nothing declared yet. *)
Definition freshInstance : FastifyInstance.t :=
  {| FastifyInstance.requestDecorators := ∅;
     FastifyInstance.instanceDecorators := ∅ |}.

(** A request whose header holds whitespace only and whose query string
    holds a key. *)
Definition blankHeaderRequest : FastifyRequest.t :=
  {| FastifyRequest.headers := ParsedObject true {[ js "x-api-key" := JsString (js "   ") ]};
     FastifyRequest.query := Some (ParsedObject true {[ js "api_key" := JsString (js "  query-key ") ]});
     FastifyRequest.body := None;
     FastifyRequest.cookies := None;
     FastifyRequest.decorations := ∅ |}.

(** [sampleOptions] with an error handler that returns. *)
Definition handledOptions (result : ApiKeyValidationResult.t) : FastifyApiKeyOptions.t :=
  {| FastifyApiKeyOptions.sources := None;
     FastifyApiKeyOptions.validate := fun _ _ => Normal result;
     FastifyApiKeyOptions.errorHandler := Some (fun _ _ => Normal tt);
     FastifyApiKeyOptions.decoratorName := None;
     FastifyApiKeyOptions.allowAnonymous := None;
     FastifyApiKeyOptions.onValidation := None;
     FastifyApiKeyOptions.timingSafe := None |}.

(** A validator that throws, on a plugin that allows anonymous access and
    has an error handler. *)
Definition throwingOptions : FastifyApiKeyOptions.t :=
  {| FastifyApiKeyOptions.sources := None;
     FastifyApiKeyOptions.validate :=
       fun _ _ => Throw (ThrownValue (JsString (js "database down")));
     FastifyApiKeyOptions.errorHandler := Some (fun _ _ => Normal tt);
     FastifyApiKeyOptions.decoratorName := None;
     FastifyApiKeyOptions.allowAnonymous := Some true;
     FastifyApiKeyOptions.onValidation := None;
     FastifyApiKeyOptions.timingSafe := None |}.

(** Some bytes to generate keys from. *)
Definition sampleEntropy (i : nat) : N := (N.of_nat (37 * i + 11)) mod 256.

(** Another source, with the same first 24 bytes. *)
Definition otherEntropy (i : nat) : N := if (i <? 24)%nat then sampleEntropy i else 0.

(** [buffer.constants.MAX_STRING_LENGTH] of a 64-bit build. *)
Definition MAX_STRING_LENGTH : Z := 536870888.

End Plugin.

(** ** Proof automation *)

(** Goals with quotients and remainders by constants. *)
Ltac divlia := zify; Z.to_euclidean_division_equations; lia.

(** Linear arithmetic with the quotients and remainders taken as unknowns,
    the facts about them being in the context. *)
Ltac digits :=
  repeat match goal with
    | |- context [N.modulo ?a ?b] =>
        let r := fresh "r" in set (r := N.modulo a b) in *; clearbody r
    | |- context [N.div ?a ?b] =>
        let q := fresh "q" in set (q := N.div a b) in *; clearbody q
    end;
  lia.

(** The two facts of a division by a constant. *)
Ltac euclid b c :=
  pose proof (N.div_mod b c ltac:(lia));
  pose proof (N.mod_lt b c ltac:(lia)).

(** As [digits], the quotients and remainders of the hypotheses included. *)
Ltac fields :=
  repeat match goal with
    | |- context [N.modulo ?a ?b] =>
        let r := fresh "r" in set (r := N.modulo a b) in *; clearbody r
    | |- context [N.div ?a ?b] =>
        let q := fresh "q" in set (q := N.div a b) in *; clearbody q
    | H : context [N.modulo ?a ?b] |- _ =>
        let r := fresh "r" in set (r := N.modulo a b) in *; clearbody r
    | H : context [N.div ?a ?b] |- _ =>
        let q := fresh "q" in set (q := N.div a b) in *; clearbody q
    end;
  lia.

(** * Properties *)

(** ** Scope predicates *)

Lemma includes_elem_of (provided : list jsstring) (scope : jsstring) :
  includes provided scope = true ↔ scope ∈ provided.
Proof.
  induction provided as [|s rest IH]; simpl.
  - split; [discriminate | intros H; inversion H].
  - destruct (decide (s = scope)) as [->|Hne].
    + split; [intros _; left | reflexivity].
    + rewrite IH. split; [intros H; by right |].
      intros H. inversion H; subst; [congruence | assumption].
Qed.

Lemma includes_not_elem_of (provided : list jsstring) (scope : jsstring) :
  includes provided scope = false ↔ scope ∉ provided.
Proof.
  rewrite <- includes_elem_of. destruct (includes provided scope); split; congruence.
Qed.

Lemma hasAllScopes_true (provided required : list jsstring) :
  hasAllScopes provided required = true ↔ ∀ s, s ∈ required → s ∈ provided.
Proof.
  unfold hasAllScopes. rewrite forallb_forall. split.
  - intros H s Hs. apply includes_elem_of, H. by apply list_elem_of_In.
  - intros H s Hs. apply includes_elem_of, H. by apply list_elem_of_In.
Qed.

Lemma hasAnyScope_true (provided required : list jsstring) :
  hasAnyScope provided required = true ↔ ∃ s, s ∈ required ∧ s ∈ provided.
Proof.
  unfold hasAnyScope. rewrite existsb_exists. split.
  - intros (s & Hs & Hi). exists s. split; [by apply list_elem_of_In | by apply includes_elem_of].
  - intros (s & Hs & Hi). exists s. split; [by apply list_elem_of_In | by apply includes_elem_of].
Qed.

Lemma missing_filter (provided required : list jsstring) :
  List.filter (fun s => negb (includes provided s)) required
  = filter (λ s, s ∉ provided) required.
Proof.
  induction required as [|s rest IH]; [reflexivity|].
  simpl. rewrite filter_cons, IH.
  destruct (includes provided s) eqn:E; simpl.
  - apply includes_elem_of in E. by rewrite decide_False by tauto.
  - apply includes_not_elem_of in E. by rewrite decide_True.
Qed.

#[local] Arguments hasAllScopes : simpl never.
#[local] Arguments hasAnyScope : simpl never.
#[local] Arguments List.filter : simpl never.

(** The two blocks of [validateScopes], each read on its own. *)
Lemma checkAllRequired_None (provided : list jsstring) required :
  checkAllRequired provided required = None
  ↔ ∀ s, s ∈ default [] required → s ∈ provided.
Proof.
  destruct required as [[|r rs]|]; simpl.
  - split; [intros _ s H; inversion H | reflexivity].
  - destruct (hasAllScopes provided (r :: rs)) eqn:E; simpl.
    + rewrite hasAllScopes_true in E. split; [intros _; exact E | reflexivity].
    + split; [discriminate|]. intros H. rewrite <- hasAllScopes_true in H. congruence.
  - split; [intros _ s H; inversion H | reflexivity].
Qed.

Lemma checkAllRequired_Some (provided : list jsstring) required r :
  checkAllRequired provided required = Some r →
  r = {| ScopeValidationResult.valid := false;
         ScopeValidationResult.missing := Some (filter (λ s, s ∉ provided) (default [] required)) |}.
Proof.
  destruct required as [[|q qs]|]; simpl; try discriminate.
  destruct (hasAllScopes provided (q :: qs)); simpl; [discriminate|].
  intros [= <-]. f_equal. f_equal. apply (missing_filter provided (q :: qs)).
Qed.

Lemma checkAnyOf_None (provided : list jsstring) anyOf :
  checkAnyOf provided anyOf = None
  ↔ default [] anyOf = [] ∨ ∃ s, s ∈ default [] anyOf ∧ s ∈ provided.
Proof.
  destruct anyOf as [[|a rest]|]; simpl.
  - split; [by left | reflexivity].
  - destruct (hasAnyScope provided (a :: rest)) eqn:E; simpl.
    + rewrite hasAnyScope_true in E. split; [by right | reflexivity].
    + split; [discriminate|]. intros [H|H]; [discriminate|].
      rewrite <- hasAnyScope_true in H. congruence.
  - split; [by left | reflexivity].
Qed.

Lemma checkAnyOf_Some (provided : list jsstring) anyOf r :
  checkAnyOf provided anyOf = Some r →
  r = {| ScopeValidationResult.valid := false;
         ScopeValidationResult.missing := Some (default [] anyOf) |}.
Proof.
  destruct anyOf as [[|a rest]|]; simpl; try discriminate.
  destruct (hasAnyScope provided (a :: rest)); simpl; [discriminate|].
  by intros [= <-].
Qed.

(** C3. [validateScopes] is valid exactly when (required is empty or
    absent, or each of its elements is provided) and (anyOf is empty or
    absent, or one of its elements is provided). When the all-required
    check fails, [missing] is the elements of required that are not
    provided, in the order of required; when it passes and the anyOf check
    fails, [missing] is the whole anyOf list in its order. *)
Theorem validateScopes_spec (provided : list jsstring) (required anyOf : option (list jsstring)) :
  (ScopeValidationResult.valid (validateScopes provided required anyOf) = true
   ↔ (default [] required = [] ∨ ∀ s, s ∈ default [] required → s ∈ provided)
     ∧ (default [] anyOf = [] ∨ ∃ s, s ∈ default [] anyOf ∧ s ∈ provided))
  ∧ (¬ (default [] required = [] ∨ ∀ s, s ∈ default [] required → s ∈ provided) →
     validateScopes provided required anyOf
     = {| ScopeValidationResult.valid := false;
          ScopeValidationResult.missing := Some (filter (λ s, s ∉ provided) (default [] required)) |})
  ∧ ((default [] required = [] ∨ ∀ s, s ∈ default [] required → s ∈ provided) →
     ¬ (default [] anyOf = [] ∨ ∃ s, s ∈ default [] anyOf ∧ s ∈ provided) →
     validateScopes provided required anyOf
     = {| ScopeValidationResult.valid := false;
          ScopeValidationResult.missing := Some (default [] anyOf) |}).
Proof.
  assert (Hall : (default [] required = [] ∨ ∀ s, s ∈ default [] required → s ∈ provided)
                 ↔ checkAllRequired provided required = None).
  { rewrite checkAllRequired_None. split; [|by right].
    intros [-> | H]; [intros s Hs; inversion Hs | exact H]. }
  rewrite Hall, <- checkAnyOf_None. unfold validateScopes.
  destruct (checkAllRequired provided required) as [r|] eqn:Er.
  - apply checkAllRequired_Some in Er. subst r. simpl.
    split; [split; [discriminate | intros [? _]; discriminate]|].
    split; [reflexivity | intros ?; discriminate].
  - destruct (checkAnyOf provided anyOf) as [r|] eqn:Ea.
    + apply checkAnyOf_Some in Ea. subst r. simpl.
      split; [split; [discriminate | intros [_ ?]; discriminate]|].
      split; [intros H; by destruct H | reflexivity].
    + simpl. split; [tauto|]. split; intros H; [by destruct H | intros H'; by destruct H'].
Qed.

(** The examples of the spec. *)
Example validateScopes_all_present :
  validateScopes [js "read"; js "write"; js "admin"] (Some [js "read"; js "write"]) None
  = {| ScopeValidationResult.valid := true; ScopeValidationResult.missing := None |}.
Proof. reflexivity. Qed.

Example validateScopes_missing_in_order :
  validateScopes [js "read"] (Some [js "read"; js "write"; js "admin"]) None
  = {| ScopeValidationResult.valid := false;
       ScopeValidationResult.missing := Some [js "write"; js "admin"] |}.
Proof. reflexivity. Qed.

Example validateScopes_anyOf_reported :
  validateScopes [js "read"; js "write"] (Some [js "read"; js "write"])
    (Some [js "admin"; js "super"])
  = {| ScopeValidationResult.valid := false;
       ScopeValidationResult.missing := Some [js "admin"; js "super"] |}.
Proof. reflexivity. Qed.

Example InsufficientScopesError_message :
  message (new_InsufficientScopesError [js "admin"; js "write"] [js "read"])
  = js "Insufficient scopes. Required: admin, write".
Proof. reflexivity. Qed.

(** Lists with the same elements, through the sets they represent. *)
Lemma same_set_elem_of (l l' : list jsstring) :
  list_to_set l =@{gset jsstring} list_to_set l' → ∀ s, s ∈ l ↔ s ∈ l'.
Proof.
  intros H s. rewrite <- (elem_of_list_to_set (C := gset jsstring) s l), H.
  apply elem_of_list_to_set.
Qed.

Lemma same_set_nil (l l' : list jsstring) :
  list_to_set l =@{gset jsstring} list_to_set l' → l = [] → l' = [].
Proof.
  intros H ->. apply elem_of_nil_inv. intros s Hs.
  apply (same_set_elem_of _ _ H) in Hs. inversion Hs.
Qed.

(** C8. Duplicate entries in a requirement list have no effect: two
    required lists with the same elements, and two anyOf lists with the
    same elements, give the same [valid] flag and the same [missing] set. *)
Theorem validateScopes_duplicates (provided : list jsstring)
    (required required' anyOf anyOf' : option (list jsstring)) :
  list_to_set (default [] required) =@{gset jsstring} list_to_set (default [] required') →
  list_to_set (default [] anyOf) =@{gset jsstring} list_to_set (default [] anyOf') →
  ScopeValidationResult.valid (validateScopes provided required anyOf)
  = ScopeValidationResult.valid (validateScopes provided required' anyOf')
  ∧ list_to_set <$> ScopeValidationResult.missing (validateScopes provided required anyOf)
    =@{option (gset jsstring)}
    list_to_set <$> ScopeValidationResult.missing (validateScopes provided required' anyOf').
Proof.
  intros Hr Ha.
  pose proof (same_set_elem_of _ _ Hr) as Hr'.
  pose proof (same_set_elem_of _ _ Ha) as Ha'.
  assert (Hall : checkAllRequired provided required = None
                 ↔ checkAllRequired provided required' = None).
  { rewrite !checkAllRequired_None. split; intros H s Hs; apply H, Hr', Hs. }
  assert (Hany : checkAnyOf provided anyOf = None
                 ↔ checkAnyOf provided anyOf' = None).
  { rewrite !checkAnyOf_None. split.
    - intros [H | (s & Hs & Hp)]; [left; exact (same_set_nil _ _ Ha H)|].
      right. exists s. split; [by apply Ha' | done].
    - intros [H | (s & Hs & Hp)]; [left; exact (same_set_nil _ _ (eq_sym Ha) H)|].
      right. exists s. split; [by apply Ha' | done]. }
  unfold validateScopes.
  destruct (checkAllRequired provided required) as [r|] eqn:E1;
    destruct (checkAllRequired provided required') as [r'|] eqn:E2;
    try (destruct Hall as [H1 H2]; (specialize (H1 eq_refl) || specialize (H2 eq_refl));
         discriminate).
  - apply checkAllRequired_Some in E1, E2. subst r r'. simpl.
    split; [reflexivity|]. f_equal. apply set_eq. intros s.
    rewrite !elem_of_list_to_set, !list_elem_of_filter, Hr'. reflexivity.
  - destruct (checkAnyOf provided anyOf) as [r|] eqn:E3;
      destruct (checkAnyOf provided anyOf') as [r'|] eqn:E4;
      try (destruct Hany as [H1 H2]; (specialize (H1 eq_refl) || specialize (H2 eq_refl));
           discriminate).
    + apply checkAnyOf_Some in E3, E4. subst r r'. simpl.
      split; [reflexivity|]. by f_equal.
    + split; reflexivity.
Qed.

(** ** The timing-safe comparison *)

Import Utf8.

(** [decode], one leading byte class at a time. *)
Lemma decode_1 b0 t :
  b0 < 0x80 → decode (b0 :: t) = b0 :: decode t.
Proof. intros H. cbn [decode]. by rewrite (proj2 (N.ltb_lt _ _) H). Qed.

Lemma decode_2 b0 b1 t :
  0x80 ≤ b0 → b0 < 0xE0 →
  decode (b0 :: b1 :: t) = ((b0 - 0xC0) * 64 + (b1 - 0x80)) :: decode t.
Proof.
  intros H1 H2. cbn [decode].
  by rewrite (proj2 (N.ltb_ge _ _) H1), (proj2 (N.ltb_lt _ _) H2).
Qed.

Lemma decode_3 b0 b1 b2 t :
  0xE0 ≤ b0 → b0 < 0xF0 →
  decode (b0 :: b1 :: b2 :: t)
  = ((b0 - 0xE0) * 4096 + (b1 - 0x80) * 64 + (b2 - 0x80)) :: decode t.
Proof.
  intros H1 H2. cbn [decode].
  rewrite (proj2 (N.ltb_ge b0 0x80)) by lia.
  rewrite (proj2 (N.ltb_ge b0 0xE0)) by lia.
  by rewrite (proj2 (N.ltb_lt _ _) H2).
Qed.

Lemma decode_4 b0 b1 b2 b3 t :
  0xF0 ≤ b0 →
  decode (b0 :: b1 :: b2 :: b3 :: t)
  = let cp := (b0 - 0xF0) * 262144 + (b1 - 0x80) * 4096
              + (b2 - 0x80) * 64 + (b3 - 0x80) in
    (0xD800 + (cp - 0x10000) / 0x400)
      :: (0xDC00 + (cp - 0x10000) mod 0x400) :: decode t.
Proof.
  intros H1. cbn [decode].
  rewrite (proj2 (N.ltb_ge b0 0x80)) by lia.
  rewrite (proj2 (N.ltb_ge b0 0xE0)) by lia.
  by rewrite (proj2 (N.ltb_ge b0 0xF0)) by lia.
Qed.

(** Arithmetic of the six-bit groups. *)

Lemma groups_2 u : (u / 64) * 64 + u mod 64 = u.
Proof. divlia. Qed.

Lemma groups_3 u : (u / 4096) * 4096 + ((u / 64) mod 64) * 64 + u mod 64 = u.
Proof. divlia. Qed.

Lemma groups_4 u :
  (u / 262144) * 262144 + ((u / 4096) mod 64) * 4096 + ((u / 64) mod 64) * 64 + u mod 64 = u.
Proof. divlia. Qed.

Lemma lead_2 u : u < 0x800 → u / 64 < 32.
Proof. intros. divlia. Qed.

Lemma lead_3 u : u < 0x10000 → u / 4096 < 16.
Proof. intros. divlia. Qed.

Lemma pair_high hi lo : lo < 0x400 → (hi * 0x400 + lo) / 0x400 = hi.
Proof. intros. divlia. Qed.

Lemma pair_low hi lo : lo < 0x400 → (hi * 0x400 + lo) mod 0x400 = lo.
Proof. intros. divlia. Qed.

(** Reading back the encoding of a code unit of the Basic Multilingual
    Plane. *)
Lemma decode_encode_unit (u : N) (bs : list N) :
  u < 0x10000 → decode (encode u ++ bs) = u :: decode bs.
Proof.
  intros Hu. unfold encode.
  destruct (N.ltb_spec u 0x80); [by apply decode_1|].
  destruct (N.ltb_spec u 0x800) as [H2|_].
  { pose proof (lead_2 u H2). pose proof (groups_2 u).
    cbn [app]. rewrite decode_2 by digits. f_equal. digits. }
  destruct (N.ltb_spec u 0x10000); [|lia].
  pose proof (lead_3 u Hu). pose proof (groups_3 u).
  cbn [app]. rewrite decode_3 by digits. f_equal. digits.
Qed.

(** Reading back the encoding of a surrogate pair. *)
Lemma decode_encode_pair (hi lo : N) (bs : list N) :
  isHighSurrogate hi = true → isLowSurrogate lo = true →
  decode (encode (codePoint hi lo) ++ bs) = hi :: lo :: decode bs.
Proof.
  unfold isHighSurrogate, isLowSurrogate.
  rewrite !andb_true_iff, !N.leb_le. intros [H1 H2] [H3 H4].
  assert (Hcp : codePoint hi lo = 0x10000 + ((hi - 0xD800) * 0x400 + (lo - 0xDC00)))
    by (unfold codePoint; lia).
  assert (Hlo : lo - 0xDC00 < 0x400) by lia.
  pose proof (pair_high (hi - 0xD800) _ Hlo) as Hq.
  pose proof (pair_low (hi - 0xD800) _ Hlo) as Hr.
  pose proof (groups_4 (codePoint hi lo)) as Hg.
  unfold encode.
  destruct (N.ltb_spec (codePoint hi lo) 0x80); [lia|].
  destruct (N.ltb_spec (codePoint hi lo) 0x800); [lia|].
  destruct (N.ltb_spec (codePoint hi lo) 0x10000); [lia|].
  cbn [app]. rewrite decode_4 by digits. cbn zeta.
  replace ((0xF0 + codePoint hi lo / 262144 - 0xF0) * 262144
           + (0x80 + (codePoint hi lo / 4096) mod 64 - 0x80) * 4096
           + (0x80 + (codePoint hi lo / 64) mod 64 - 0x80) * 64
           + (0x80 + codePoint hi lo mod 64 - 0x80))
    with (codePoint hi lo) by digits.
  replace (codePoint hi lo - 0x10000) with ((hi - 0xD800) * 0x400 + (lo - 0xDC00)) by lia.
  rewrite Hq, Hr. f_equal; [lia|]. f_equal. lia.
Qed.

(** [Buffer_from], one case at a time. *)
Lemma Buffer_from_pair hi lo rest :
  isHighSurrogate hi = true → isLowSurrogate lo = true →
  Buffer_from (hi :: lo :: rest) = encode (codePoint hi lo) ++ Buffer_from rest.
Proof. intros H1 H2. cbn [Buffer_from]. by rewrite H1, H2. Qed.

Lemma Buffer_from_plain u rest :
  isHighSurrogate u = false → isLowSurrogate u = false →
  Buffer_from (u :: rest) = encode u ++ Buffer_from rest.
Proof. intros H1 H2. cbn [Buffer_from]. by rewrite H1, H2. Qed.

Lemma replacement_plain :
  isHighSurrogate replacement = false ∧ isLowSurrogate replacement = false
  ∧ replacement < 0x10000.
Proof. by vm_compute. Qed.

(** Case analysis along [toWellFormed]: a pair, an unpaired surrogate, or
    a plain code unit at the head. *)
Lemma toWellFormed_cases (P : jsstring → jsstring → Prop) :
  P [] [] →
  (∀ hi lo rest, isHighSurrogate hi = true → isLowSurrogate lo = true →
     P rest (toWellFormed rest) → P (hi :: lo :: rest) (hi :: lo :: toWellFormed rest)) →
  (∀ u rest, (isHighSurrogate u = true ∨ isLowSurrogate u = true) →
     (isHighSurrogate u = true → ∀ v rest', rest = v :: rest' → isLowSurrogate v = false) →
     P rest (toWellFormed rest) → P (u :: rest) (replacement :: toWellFormed rest)) →
  (∀ u rest, isHighSurrogate u = false → isLowSurrogate u = false →
     P rest (toWellFormed rest) → P (u :: rest) (u :: toWellFormed rest)) →
  ∀ s, P s (toWellFormed s).
Proof.
  intros Hnil Hpair Hlone Hplain s.
  assert (H : ∀ n s, (length s ≤ n)%nat → P s (toWellFormed s)).
  { clear s. induction n as [|n IH]; intros s Hlen.
    - destruct s; [exact Hnil | simpl in Hlen; lia].
    - destruct s as [|u rest]; [exact Hnil|]. simpl in Hlen.
      cbn [toWellFormed].
      destruct (isHighSurrogate u) eqn:Hhi.
      + destruct rest as [|v rest'].
        * apply (Hlone u []); [by left | intros _ v rest'; discriminate | exact Hnil].
        * destruct (isLowSurrogate v) eqn:Hlo.
          -- apply Hpair; [done..|]. apply IH. simpl in Hlen. lia.
          -- apply (Hlone u (v :: rest')); [by left | | apply IH; lia].
             intros _ v0 rest0 [= <- <-]. exact Hlo.
      + destruct (isLowSurrogate u) eqn:Hlo.
        * apply Hlone; [by right | intros H; congruence | apply IH; lia].
        * apply Hplain; [done..|]. apply IH. lia. }
  by apply (H (length s)).
Qed.

Lemma Buffer_from_lone u rest :
  (isHighSurrogate u = true ∨ isLowSurrogate u = true) →
  (isHighSurrogate u = true → ∀ v rest', rest = v :: rest' → isLowSurrogate v = false) →
  Buffer_from (u :: rest) = encode replacement ++ Buffer_from rest.
Proof.
  intros Hu Hnext. cbn [Buffer_from]. destruct (isHighSurrogate u) eqn:Hhi.
  - destruct rest as [|v rest']; [by rewrite app_nil_r|].
    by rewrite (Hnext eq_refl v rest' eq_refl).
  - destruct Hu as [Hu | ->]; [discriminate | done].
Qed.

Lemma toWellFormed_length s : length (toWellFormed s) = length s.
Proof.
  apply (toWellFormed_cases (λ s w, length w = length s)); simpl; auto.
Qed.

(** The bytes of a string are the bytes of its well-formed version. *)
Lemma Buffer_from_toWellFormed s : Buffer_from (toWellFormed s) = Buffer_from s.
Proof.
  apply (toWellFormed_cases (λ s w, Buffer_from w = Buffer_from s)).
  - reflexivity.
  - intros hi lo rest Hhi Hlo IH. rewrite !Buffer_from_pair by done. by rewrite IH.
  - intros u rest Hu Hnext IH. rewrite (Buffer_from_lone u) by done.
    destruct replacement_plain as (H1 & H2 & _).
    rewrite Buffer_from_plain by done. by rewrite IH.
  - intros u rest Hhi Hlo IH. rewrite !Buffer_from_plain by done. by rewrite IH.
Qed.

(** Reading the bytes back gives the well-formed version. *)
Lemma decode_Buffer_from s :
  is_jsstring s → decode (Buffer_from s) = toWellFormed s.
Proof.
  apply (toWellFormed_cases (λ s w, is_jsstring s → decode (Buffer_from s) = w)).
  - reflexivity.
  - intros hi lo rest Hhi Hlo IH Hs. rewrite Buffer_from_pair by done.
    rewrite decode_encode_pair by done. f_equal. f_equal. apply IH.
    by apply Forall_inv_tail, Forall_inv_tail in Hs.
  - intros u rest Hu Hnext IH Hs. rewrite Buffer_from_lone by done.
    destruct replacement_plain as (_ & _ & H3).
    rewrite decode_encode_unit by done. f_equal. apply IH.
    by apply Forall_inv_tail in Hs.
  - intros u rest Hhi Hlo IH Hs. rewrite Buffer_from_plain by done.
    rewrite decode_encode_unit by (by apply Forall_inv in Hs). f_equal. apply IH.
    by apply Forall_inv_tail in Hs.
Qed.

Lemma Buffer_from_eq (a b : jsstring) :
  is_jsstring a → is_jsstring b →
  Buffer_from a = Buffer_from b ↔ toWellFormed a = toWellFormed b.
Proof.
  intros Ha Hb. split; intros H.
  - by rewrite <- (decode_Buffer_from a), <- (decode_Buffer_from b), H.
  - by rewrite <- (Buffer_from_toWellFormed a), <- (Buffer_from_toWellFormed b), H.
Qed.

(** What the comparison of two strings computes; it never throws. *)
Lemma timingSafeCompare_strings (a b : jsstring) :
  timingSafeCompare (JsString a) (JsString b)
  = Some (bool_decide (Buffer_from a = Buffer_from b)).
Proof.
  unfold timingSafeCompare.
  destruct (bool_decide (length (Buffer_from a) = length (Buffer_from b))) eqn:Hlen;
    cbn [negb].
  - apply bool_decide_eq_true in Hlen. unfold timingSafeEqual. by rewrite decide_True.
  - apply bool_decide_eq_false in Hlen. unfold timingSafeEqual.
    rewrite decide_True by done. cbn [mbind option_bind].
    rewrite bool_decide_eq_false_2; [done|]. intros H. by rewrite H in Hlen.
Qed.

(** X25. For strings [a] and [b] the comparison returns true exactly when they have the same UTF-8 bytes, that is when
    they are equal once every unpaired surrogate is replaced by U+FFFD;
    for well-formed strings this is exactly [a = b]. Strings of different
    lengths give false, and so does any input that is not a string. *)
Theorem timingSafeCompare_spec (a b : jsstring) :
  is_jsstring a → is_jsstring b →
  (timingSafeCompare (JsString a) (JsString b) = Some true
   ↔ toWellFormed a = toWellFormed b)
  ∧ (timingSafeCompare (JsString a) (JsString b) = Some false
     ↔ toWellFormed a ≠ toWellFormed b)
  ∧ (isWellFormed a → isWellFormed b →
     (timingSafeCompare (JsString a) (JsString b) = Some true ↔ a = b))
  ∧ (length a ≠ length b →
     timingSafeCompare (JsString a) (JsString b) = Some false)
  ∧ (∀ x y, typeof_string x = false ∨ typeof_string y = false →
            timingSafeCompare x y = Some false).
Proof.
  intros Ha Hb. rewrite timingSafeCompare_strings.
  pose proof (Buffer_from_eq a b Ha Hb) as Heq.
  assert (Htrue : Some (bool_decide (Buffer_from a = Buffer_from b)) = Some true
                  ↔ toWellFormed a = toWellFormed b).
  { rewrite <- Heq. split.
    - intros [= H]. by apply bool_decide_eq_true in H.
    - intros H. by rewrite bool_decide_eq_true_2. }
  assert (Hfalse : Some (bool_decide (Buffer_from a = Buffer_from b)) = Some false
                   ↔ toWellFormed a ≠ toWellFormed b).
  { rewrite <- Heq. split.
    - intros [= H]. by apply bool_decide_eq_false in H.
    - intros H. by rewrite bool_decide_eq_false_2. }
  split; [exact Htrue|]. split; [exact Hfalse|]. split; [|split].
  - unfold isWellFormed. intros Hwa Hwb. by rewrite Htrue, Hwa, Hwb.
  - intros Hlen. apply Hfalse. intros H. apply Hlen.
    by rewrite <- (toWellFormed_length a), <- (toWellFormed_length b), H.
  - intros x y [Hx | Hy].
    + by destruct x.
    + by destruct x, y.
Qed.

(** C9. The comparison is not an exact match: the two strings below,
    "\uD800" and "\uD801", differ and compare equal, both being encoded
    by [Buffer.from] as the bytes of U+FFFD. *)
Lemma timingSafeCompare_unpaired_surrogates :
  is_jsstring [0xD800] ∧ is_jsstring [0xD801]
  ∧ Buffer_from [0xD800] = [0xEF; 0xBF; 0xBD]
  ∧ Buffer_from [0xD801] = [0xEF; 0xBF; 0xBD]
  ∧ timingSafeCompare (JsString [0xD800]) (JsString [0xD801]) = Some true
  ∧ [0xD800] ≠@{jsstring} [0xD801]
  ∧ ¬ (timingSafeCompare (JsString [0xD800]) (JsString [0xD801]) = Some true
       ↔ [0xD800] = [0xD801] :> jsstring).
Proof.
  split; [by repeat constructor|]. split; [by repeat constructor|].
  split; [reflexivity|]. split; [reflexivity|]. split; [reflexivity|].
  split; [discriminate|].
  intros [H _]. assert (Heq : [0xD800] = [0xD801] :> jsstring) by (apply H; reflexivity).
  discriminate Heq.
Qed.

(** ** Strings *)

Lemma startsWith_app (value prefix : jsstring) :
  startsWith value prefix = true ↔ ∃ rest, value = prefix ++ rest.
Proof.
  revert value. induction prefix as [|p prefix IH]; intros value; simpl.
  - split; [intros _; by exists value | reflexivity].
  - destruct value as [|v value].
    + split; [discriminate | intros [rest H]; discriminate].
    + destruct (N.eqb_spec v p) as [->|Hne].
      * rewrite IH. split; intros [rest H]; exists rest; [by rewrite H | by injection H].
      * split; [discriminate | intros [rest H]; injection H; congruence].
Qed.

Lemma slice_prefix (prefix rest : jsstring) :
  slice (prefix ++ rest) (length prefix) = rest.
Proof. apply drop_app_length. Qed.

Lemma trimStart_split (s : jsstring) :
  ∃ ws, s = ws ++ trimStart s
        ∧ Forall (λ u, isWhiteSpace u = true) ws
        ∧ (∀ u, head (trimStart s) = Some u → isWhiteSpace u = false).
Proof.
  induction s as [|u s (ws & Hs & Hws & Hhead)]; simpl.
  - exists []. repeat split; [constructor | discriminate].
  - destruct (isWhiteSpace u) eqn:E.
    + exists (u :: ws). repeat split; [simpl; congruence | by constructor | exact Hhead].
    + exists []. repeat split; [constructor|]. simpl. congruence.
Qed.

(** [trim] removes a run of whitespace at each end and nothing else, and
    what is left neither starts nor ends with whitespace. *)
Lemma trim_split (s : jsstring) :
  ∃ before after, s = before ++ trim s ++ after
    ∧ Forall (λ u, isWhiteSpace u = true) before
    ∧ Forall (λ u, isWhiteSpace u = true) after
    ∧ (∀ u, head (trim s) = Some u → isWhiteSpace u = false)
    ∧ (∀ u, last (trim s) = Some u → isWhiteSpace u = false).
Proof.
  destruct (trimStart_split s) as (before & Hs & Hb & Hhead).
  destruct (trimStart_split (rev (trimStart s))) as (ws & Hr & Hws & Hlast).
  exists before, (rev ws). unfold trim, trimEnd.
  assert (Hmid : trimStart s = rev (trimStart (rev (trimStart s))) ++ rev ws).
  { rewrite <- rev_app_distr, <- Hr. symmetry. apply rev_involutive. }
  split; [by rewrite <- Hmid|].
  split; [exact Hb|].
  split; [by apply Forall_rev (* whitespace after *)|].
  split.
  - intros u Hu. apply Hhead. rewrite Hmid.
    destruct (rev (trimStart (rev (trimStart s)))); [discriminate | exact Hu].
  - intros u Hu. apply Hlast. rewrite rev_alt in Hu.
    change (rev_append ?l []) with (reverse l) in Hu.
    by rewrite last_reverse in Hu.
Qed.

(** ** Key extraction *)

Section GuardProperties.

Variable toLowerCase : jsstring -> jsstring.

Local Abbreviation sourceValue := (sourceValue toLowerCase).
Local Abbreviation extractFromSource := (extractFromSource toLowerCase).
Local Abbreviation extractApiKey := (extractApiKey toLowerCase).
Local Abbreviation createGuard := (createGuard toLowerCase).
Local Abbreviation accepted := (accepted toLowerCase).

Lemma isWhiteSpace_whitespace (u : N) : isWhiteSpace u = true ↔ u ∈ whitespace.
Proof.
  unfold isWhiteSpace, whitespace. rewrite !orb_true_iff, andb_true_iff.
  rewrite !N.eqb_eq, !N.leb_le, !elem_of_cons, elem_of_nil. split.
  - intros H.
    assert (Hrange : 0x2000 ≤ u ≤ 0x200A →
              u = 0x2000 ∨ u = 0x2001 ∨ u = 0x2002 ∨ u = 0x2003 ∨ u = 0x2004 ∨ u = 0x2005
              ∨ u = 0x2006 ∨ u = 0x2007 ∨ u = 0x2008 ∨ u = 0x2009 ∨ u = 0x200A) by lia.
    intuition (subst; tauto).
  - intros H. intuition (subst; first [lia | tauto]).
Qed.

Lemma trim_trimmed (s : jsstring) : trimmed s (trim s).
Proof.
  destruct (trim_split s) as (before & after & Hs & Hb & Ha & Hhead & Hlast).
  exists before, after. split; [exact Hs|].
  split; [eapply Forall_impl; [exact Hb|]; intros u; apply isWhiteSpace_whitespace|].
  split; [eapply Forall_impl; [exact Ha|]; intros u; apply isWhiteSpace_whitespace|].
  split; intros u Hu Hin; apply isWhiteSpace_whitespace in Hin.
  - by rewrite (Hhead u Hu) in Hin.
  - by rewrite (Hlast u Hu) in Hin.
Qed.

(** C7. For a source with a configured prefix and a raw value read from
    the request: when the value starts with the prefix, the candidate key
    is what follows the prefix with the surrounding whitespace trimmed;
    when it does not, the candidate is the whole value with the
    surrounding whitespace trimmed. *)
Theorem extractFromSource_prefix (request : FastifyRequest.t) (source : ApiKeySource.t)
    (prefix value : jsstring) :
  ApiKeySource.prefix source = Some prefix →
  sourceValue request source = JsString value →
  value ≠ [] →
  (∀ rest, value = prefix ++ rest →
     ∃ key, extractFromSource request source = Normal (Some key) ∧ trimmed rest key)
  ∧ ((∀ rest, value ≠ prefix ++ rest) →
     ∃ key, extractFromSource request source = Normal (Some key) ∧ trimmed value key).
Proof.
  intros Hprefix Hvalue Hne. unfold extractFromSource.
  rewrite Hvalue, Hprefix.
  destruct value as [|v value']; [congruence|]. cbn [toBoolean truthy negb].
  split.
  - intros rest Hrest. exists (trim rest). split; [|apply trim_trimmed].
    destruct prefix as [|p prefix']; cbn [truthy andb].
    + simpl in Hrest. by rewrite Hrest.
    + rewrite (proj2 (startsWith_app _ _) (ex_intro _ rest Hrest)).
      by rewrite Hrest, slice_prefix.
  - intros Hno. exists (trim (v :: value')). split; [|apply trim_trimmed].
    destruct (startsWith (v :: value') prefix) eqn:E.
    + apply startsWith_app in E as [rest Hrest]. by destruct (Hno rest).
    + by rewrite andb_false_r.
Qed.

Lemma extractApiKey_cons_yield request source rest key :
  extractFromSource request source = Normal (Some key) → key ≠ [] →
  extractApiKey request (source :: rest) = Normal (Some key).
Proof. intros H Hne. simpl. rewrite H. by destruct key. Qed.

Lemma extractApiKey_cons_skip request source rest :
  skipped toLowerCase request source →
  extractApiKey request (source :: rest) = extractApiKey request rest.
Proof. intros [H|H]; simpl; by rewrite H. Qed.

Lemma extractApiKey_cons_throw request source rest t :
  extractFromSource request source = Throw t →
  extractApiKey request (source :: rest) = Throw t.
Proof. intros H. simpl. by rewrite H. Qed.

(** The source at which the loop ends, when it ends before the list
    does: every source before it was skipped. *)
Lemma extractApiKey_inv request sources :
  match extractApiKey request sources with
  | Normal None => Forall (skipped toLowerCase request) sources
  | Normal (Some key) =>
      ∃ before source after,
        sources = before ++ source :: after
        ∧ Forall (skipped toLowerCase request) before
        ∧ extractFromSource request source = Normal (Some key) ∧ key ≠ []
  | Throw t =>
      ∃ before source after,
        sources = before ++ source :: after
        ∧ Forall (skipped toLowerCase request) before
        ∧ extractFromSource request source = Throw t
  end.
Proof.
  induction sources as [|source rest IH]; [constructor|]. simpl.
  destruct (extractFromSource request source) as [[[|u k]|]|t] eqn:E; cbn [truthy].
  - assert (Hs : skipped toLowerCase request source) by (by right).
    destruct (extractApiKey request rest) as [[key|]|t].
    + destruct IH as (before & s & after & -> & Hb & Hk).
      exists (source :: before), s, after. split; [done|]. split; [by constructor | done].
    + by constructor.
    + destruct IH as (before & s & after & -> & Hb & Hk).
      exists (source :: before), s, after. split; [done|]. split; [by constructor | done].
  - exists [], source, rest. repeat split; [constructor | done..].
  - assert (Hs : skipped toLowerCase request source) by (by left).
    destruct (extractApiKey request rest) as [[key|]|t].
    + destruct IH as (before & s & after & -> & Hb & Hk).
      exists (source :: before), s, after. split; [done|]. split; [by constructor | done].
    + by constructor.
    + destruct IH as (before & s & after & -> & Hb & Hk).
      exists (source :: before), s, after. split; [done|]. split; [by constructor | done].
  - exists [], source, rest. repeat split; [constructor | done].
Qed.

Lemma extractApiKey_Some_inv request sources key :
  extractApiKey request sources = Normal (Some key) →
  ∃ before source after,
    sources = before ++ source :: after
    ∧ Forall (skipped toLowerCase request) before
    ∧ extractFromSource request source = Normal (Some key) ∧ key ≠ [].
Proof. intros H. pose proof (extractApiKey_inv request sources) as Hinv. by rewrite H in Hinv. Qed.

Lemma extractApiKey_skip_all request before sources :
  Forall (skipped toLowerCase request) before →
  extractApiKey request (before ++ sources) = extractApiKey request sources.
Proof.
  induction 1 as [|s before Hs _ IH]; [done|].
  rewrite <- app_comm_cons, extractApiKey_cons_skip; done.
Qed.

(** X24. Sources are tried in list order: the result is the key of the
    first source that yields a non-empty string, provided that the sources
    before it returned; what the sources after it are does not matter.
    With every source skipped, the empty list included, the result is
    absent. Extraction throws exactly when the first source not skipped
    throws. *)
Theorem extractApiKey_first_match (request : FastifyRequest.t) (sources : list ApiKeySource.t) :
  (∀ key,
     extractApiKey request sources = Normal (Some key)
     ↔ ∃ before source after,
         sources = before ++ source :: after
         ∧ Forall (skipped toLowerCase request) before
         ∧ extractFromSource request source = Normal (Some key) ∧ key ≠ [])
  ∧ (extractApiKey request sources = Normal None
     ↔ Forall (skipped toLowerCase request) sources)
  ∧ (∀ t,
       extractApiKey request sources = Throw t
       ↔ ∃ before source after,
           sources = before ++ source :: after
           ∧ Forall (skipped toLowerCase request) before
           ∧ extractFromSource request source = Throw t)
  ∧ (∀ key after',
       extractApiKey request sources = Normal (Some key) →
       ∃ before source after,
         sources = before ++ source :: after
         ∧ extractFromSource request source = Normal (Some key)
         ∧ extractApiKey request (before ++ source :: after') = Normal (Some key))
  ∧ extractApiKey request [] = Normal None.
Proof.
  pose proof (extractApiKey_inv request sources) as Hinv.
  split; [|split; [|split; [|split]]].
  - intros key. split; [apply extractApiKey_Some_inv|].
    intros (before & source & after & -> & Hb & Hs & Hne).
    rewrite extractApiKey_skip_all by done. by apply extractApiKey_cons_yield.
  - split.
    + intros Hnone. by rewrite Hnone in Hinv.
    + intros H. rewrite <- (app_nil_r sources), extractApiKey_skip_all; done.
  - intros t. split.
    + intros Ht. by rewrite Ht in Hinv.
    + intros (before & source & after & -> & Hb & Hs).
      rewrite extractApiKey_skip_all by done. by apply extractApiKey_cons_throw.
  - intros key after' H.
    destruct (extractApiKey_Some_inv _ _ _ H) as (before & source & after & -> & Hb & Hs & Hne).
    exists before, source, after. split; [done|]. split; [done|].
    rewrite extractApiKey_skip_all by done. by apply extractApiKey_cons_yield.
  - reflexivity.
Qed.

(** ** The guard *)

Lemma handleOrThrow_raises options error request before :
  raises options error request before
    (handleOrThrow options error {| st_request := request; st_calls := before |}).
Proof.
  unfold raises, handleOrThrow. destruct (errorHandler options) as [handler|]; [|done].
  unfold bind, await, ret; simpl. by destruct (handler error request) as [[]|t].
Qed.

Lemma extractApiKey_truthy request sources key :
  extractApiKey request sources = Normal (Some key) → key ≠ [].
Proof.
  intros H. by destruct (extractApiKey_Some_inv _ _ _ H) as (_ & _ & _ & _ & _ & _ & Hne).
Qed.

(** C5. When extraction yields no key, the effective anonymous-access
    policy is the route's [allowAnonymous] if present, else the plugin's
    default; if it is false the guard raises, or hands to the custom error
    handler, a MissingApiKey error with code MISSING_API_KEY and status
    401, and if it is true the request is let through with nothing
    attached to it. *)
Theorem createGuard_missing_key (options : FastifyApiKeyOptions.t)
    (guardOptions : ApiKeyGuardOptions.t) (request : FastifyRequest.t) :
  extractApiKey request (sources options) = Normal None →
  shouldAllowAnonymous options guardOptions
  = match ApiKeyGuardOptions.allowAnonymous guardOptions with
    | Some route => route
    | None => default false (FastifyApiKeyOptions.allowAnonymous options)
    end
  ∧ (shouldAllowAnonymous options guardOptions = false →
     raises options new_MissingApiKeyError request []
       (invoke (createGuard options guardOptions) request)
     ∧ code new_MissingApiKeyError = js "MISSING_API_KEY"
     ∧ statusCode new_MissingApiKeyError = 401%Z)
  ∧ (shouldAllowAnonymous options guardOptions = true →
     passesThrough request [] (invoke (createGuard options guardOptions) request)).
Proof.
  intros Hkey. split.
  { unfold shouldAllowAnonymous, allowAnonymous.
    by destruct (ApiKeyGuardOptions.allowAnonymous guardOptions). }
  unfold invoke, createGuard, bind, getRequest, call; simpl. rewrite Hkey.
  split; intros ->.
  - split; [apply handleOrThrow_raises | done].
  - reflexivity.
Qed.

(** What an invocation comes to once the key is extracted, the validator
    has returned and the hook, if any, has returned. *)
Lemma createGuard_validated options guardOptions request key result :
  extractApiKey request (sources options) = Normal (Some key) →
  validate options key request = Normal result →
  hookReturns options key result request →
  invoke (createGuard options guardOptions) request
  = let st := {| st_request := request; st_calls := validationCalls options key result |} in
    let providedScopes := default [] (ApiKeyValidationResult.scopes result) in
    if ApiKeyValidationResult.valid result then
      if ScopeValidationResult.valid (validateScopes providedScopes
                     (ApiKeyGuardOptions.scopes guardOptions)
                     (ApiKeyGuardOptions.anyScope guardOptions))
      then
        (Normal tt,
         {| st_request :=
              FastifyRequest.setApiKeyScopes providedScopes
                (FastifyRequest.set (decoratorName options)
                   {| ApiKeyData.key :=
                        if timingSafe options then js "[REDACTED]" else key;
                      ApiKeyData.scopes := providedScopes;
                      ApiKeyData.rateLimit := ApiKeyValidationResult.rateLimit result;
                      ApiKeyData.metadata :=
                        default ∅ (ApiKeyValidationResult.metadata result) |}
                   request);
            st_calls := validationCalls options key result |})
      else
        handleOrThrow options
          (new_InsufficientScopesError
             (default (default [] (ApiKeyGuardOptions.anyScope guardOptions))
                (ApiKeyGuardOptions.scopes guardOptions))
             providedScopes) st
    else if shouldAllowAnonymous options guardOptions then (Normal tt, st)
    else handleOrThrow options
           (new_InvalidApiKeyError (ApiKeyValidationResult.errorMessage result)) st.
Proof.
  intros Hkey Hvalid Hhook.
  pose proof (extractApiKey_truthy _ _ _ Hkey) as Hne.
  unfold invoke, createGuard, bind at 1, getRequest. cbn [st_request].
  unfold bind at 1, call. rewrite Hkey. destruct key as [|u key']; [done|].
  unfold bind at 1, await at 1. cbn [st_request st_calls]. rewrite Hvalid. cbn [app].
  unfold hookReturns in Hhook. unfold validationCalls.
  destruct (onValidation options) as [hook|].
  - unfold bind at 1, await at 1. cbn [st_request st_calls]. rewrite Hhook. cbn [app].
    destruct (ApiKeyValidationResult.valid result); cbn [negb].
    + destruct (ScopeValidationResult.valid _); reflexivity.
    + destruct (shouldAllowAnonymous options guardOptions); reflexivity.
  - unfold bind at 1, ret at 1.
    destruct (ApiKeyValidationResult.valid result); cbn [negb].
    + destruct (ScopeValidationResult.valid _); reflexivity.
    + destruct (shouldAllowAnonymous options guardOptions); reflexivity.
Qed.


(** The error raised when scope validation fails: it is built from the
    route's [scopes] when that option is present, from [anyScope] when
    not, and from the empty list when neither is. *)
Lemma createGuard_insufficient_scopes options guardOptions request key result :
  extractApiKey request (sources options) = Normal (Some key) →
  validate options key request = Normal result →
  hookReturns options key result request →
  ApiKeyValidationResult.valid result = true →
  ScopeValidationResult.valid (validateScopes (default [] (ApiKeyValidationResult.scopes result))
              (ApiKeyGuardOptions.scopes guardOptions)
              (ApiKeyGuardOptions.anyScope guardOptions)) = false →
  raises options
    (new_InsufficientScopesError
       match ApiKeyGuardOptions.scopes guardOptions with
       | Some scopes => scopes
       | None => default [] (ApiKeyGuardOptions.anyScope guardOptions)
       end
       (default [] (ApiKeyValidationResult.scopes result)))
    request (validationCalls options key result)
    (invoke (createGuard options guardOptions) request).
Proof.
  intros Hkey Hvalidate Hhook Hvalid Hscopes.
  rewrite (createGuard_validated _ guardOptions _ _ _ Hkey Hvalidate Hhook).
  cbn zeta. rewrite Hvalid, Hscopes. apply handleOrThrow_raises.
Qed.

Lemma raises_not_passesThrough options error request before outcome :
  raises options error request before outcome →
  ¬ passesThrough request before outcome.
Proof.
  unfold raises, passesThrough. intros Hraises ->.
  destruct (errorHandler options) as [handler|]; [|discriminate].
  destruct Hraises as [_ [= H]]. apply (f_equal length) in H.
  rewrite length_app in H. simpl in H. lia.
Qed.


(** ** The authentication context *)

Lemma fastifyApiKeyPlugin_decoratorName options fastify fastify' :
  fastifyApiKeyPlugin options fastify = Some fastify' →
  decoratorName options ≠ js "apiKeyScopes".
Proof.
  unfold fastifyApiKeyPlugin, FastifyInstance.decorateRequest. intros H Heq.
  rewrite Heq in H.
  destruct (decide (js "apiKeyScopes" ∈ FastifyInstance.requestDecorators fastify));
    [discriminate|].
  cbn [mbind option_bind FastifyInstance.requestDecorators] in H.
  rewrite decide_True in H by set_solver. discriminate.
Qed.

Lemma handleOrThrow_request options error st :
  st_request (handleOrThrow options error st).2 = st_request st.
Proof.
  unfold handleOrThrow. destruct (errorHandler options) as [handler|]; [|done].
  unfold bind, await, ret; simpl. by destruct (handler error (st_request st)).
Qed.

(** An exception of the validator or of the hook ends the invocation. *)
Lemma createGuard_validator_throws options guardOptions request key t :
  extractApiKey request (sources options) = Normal (Some key) →
  validate options key request = Throw t →
  invoke (createGuard options guardOptions) request
  = (Throw t, {| st_request := request; st_calls := [CallValidate key] |}).
Proof.
  intros Hkey Hvalidate. pose proof (extractApiKey_truthy _ _ _ Hkey).
  unfold invoke, createGuard, bind at 1, getRequest. cbn [st_request].
  unfold bind at 1, call. rewrite Hkey. destruct key as [|u key']; [done|].
  unfold bind at 1, await at 1. cbn [st_request st_calls]. by rewrite Hvalidate.
Qed.

Lemma createGuard_hook_throws options guardOptions request key result hook t :
  extractApiKey request (sources options) = Normal (Some key) →
  validate options key request = Normal result →
  onValidation options = Some hook →
  hook key result request = Throw t →
  invoke (createGuard options guardOptions) request
  = (Throw t, {| st_request := request;
                 st_calls := [CallValidate key; CallOnValidation key result] |}).
Proof.
  intros Hkey Hvalidate Hook Hhook. pose proof (extractApiKey_truthy _ _ _ Hkey).
  unfold invoke, createGuard, bind at 1, getRequest. cbn [st_request].
  unfold bind at 1, call. rewrite Hkey. destruct key as [|u key']; [done|].
  unfold bind at 1, await at 1. cbn [st_request st_calls]. rewrite Hvalidate, Hook.
  unfold bind at 1, await at 1. cbn [st_request st_calls]. by rewrite Hhook.
Qed.

(** Every path but the accepting one leaves the request as it was. *)
Lemma createGuard_accepted_or_unchanged options guardOptions request :
  (∃ key result, accepted options guardOptions request key result)
  ∨ st_request (invoke (createGuard options guardOptions) request).2 = request.
Proof.
  destruct (extractApiKey request (sources options)) as [[key|]|t] eqn:Hkey.
  2: { right. unfold invoke, createGuard, bind, getRequest, call; cbn [st_request].
       rewrite Hkey. destruct (shouldAllowAnonymous options guardOptions); [done|].
       apply handleOrThrow_request. }
  2: { right. unfold invoke, createGuard, bind, getRequest, call; cbn [st_request].
       by rewrite Hkey. }
  destruct (validate options key request) as [result|t] eqn:Hvalidate.
  2: { right. by rewrite (createGuard_validator_throws _ _ _ _ _ Hkey Hvalidate). }
  assert (Hcases : hookReturns options key result request
                   ∨ ∃ hook t, onValidation options = Some hook
                               ∧ hook key result request = Throw t).
  { unfold hookReturns. destruct (onValidation options) as [hook|]; [|by left].
    destruct (hook key result request) as [[]|t] eqn:Hhook; [by left|].
    right. by exists hook, t. }
  destruct Hcases as [Hreturns | (hook & t & Hook & Hhook)].
  2: { right. by rewrite (createGuard_hook_throws _ _ _ _ _ _ _ Hkey Hvalidate Hook Hhook). }
  rewrite (createGuard_validated _ guardOptions _ _ _ Hkey Hvalidate Hreturns).
  cbn zeta. destruct (ApiKeyValidationResult.valid result) eqn:Hvalid.
  - destruct (ScopeValidationResult.valid _) eqn:Hscopes.
    + left. by exists key, result.
    + right. apply handleOrThrow_request.
  - right. destruct (shouldAllowAnonymous options guardOptions); [done|].
    apply handleOrThrow_request.
Qed.

Lemma get_set property data request :
  FastifyRequest.get (FastifyRequest.set property data request) property
  = PropertyObject (AttachedData data).
Proof.
  unfold FastifyRequest.get, FastifyRequest.set.
  destruct (decide (property = js "headers")) as [Hh|Hh]; [reflexivity|].
  destruct (decide (property = js "query")) as [Hq|Hq]; [reflexivity|].
  destruct (decide (property = js "body")) as [Hb|Hb]; [reflexivity|].
  destruct (decide (property = js "cookies")) as [Hc|Hc]; [reflexivity|].
  cbn [FastifyRequest.decorations]. by rewrite lookup_insert_eq.
Qed.

Lemma get_set_ne property property' data request :
  property' ≠ property →
  FastifyRequest.get (FastifyRequest.set property data request) property'
  = FastifyRequest.get request property'.
Proof.
  intros Hne. unfold FastifyRequest.get.
  destruct (decide (property' = js "headers")) as [Hh|Hh];
    [|destruct (decide (property' = js "query")) as [Hq|Hq];
      [|destruct (decide (property' = js "body")) as [Hb|Hb];
        [|destruct (decide (property' = js "cookies")) as [Hc|Hc]]]];
    unfold FastifyRequest.set;
    (destruct (decide (property = js "headers")) as [Hh'|Hh'];
     [|destruct (decide (property = js "query")) as [Hq'|Hq'];
       [|destruct (decide (property = js "body")) as [Hb'|Hb'];
         [|destruct (decide (property = js "cookies")) as [Hc'|Hc']]]]);
    cbn [FastifyRequest.headers FastifyRequest.query FastifyRequest.body
         FastifyRequest.cookies FastifyRequest.decorations];
    try reflexivity; try congruence.
  by rewrite lookup_insert_ne by congruence.
Qed.

Lemma get_setApiKeyScopes scopes request :
  FastifyRequest.get (FastifyRequest.setApiKeyScopes scopes request) (js "apiKeyScopes")
  = PropertyScopes scopes.
Proof.
  unfold FastifyRequest.get, FastifyRequest.setApiKeyScopes.
  repeat (destruct (decide _) as [Heq|_]; [discriminate Heq|]).
  cbn [FastifyRequest.decorations]. by rewrite lookup_insert_eq.
Qed.

Lemma get_setApiKeyScopes_ne property scopes request :
  property ≠ js "apiKeyScopes" →
  FastifyRequest.get (FastifyRequest.setApiKeyScopes scopes request) property
  = FastifyRequest.get request property.
Proof.
  intros Hne. unfold FastifyRequest.get, FastifyRequest.setApiKeyScopes.
  cbn [FastifyRequest.headers FastifyRequest.query FastifyRequest.body
       FastifyRequest.cookies FastifyRequest.decorations].
  by rewrite lookup_insert_ne by congruence.
Qed.


End GuardProperties.

(** * Further properties *)

(** ** Scopes *)

Lemma validateScopes_valid_blocks (provided : list jsstring) required anyOf :
  ScopeValidationResult.valid (validateScopes provided required anyOf) = true
  ↔ checkAllRequired provided required = None ∧ checkAnyOf provided anyOf = None.
Proof.
  unfold validateScopes.
  destruct (checkAllRequired provided required) as [r|] eqn:Er.
  - apply checkAllRequired_Some in Er. subst r. simpl. split; [discriminate | intros [? _]; discriminate].
  - destruct (checkAnyOf provided anyOf) as [r|] eqn:Ea.
    + apply checkAnyOf_Some in Ea. subst r. simpl.
      split; [discriminate | intros [_ ?]; discriminate].
    + simpl. tauto.
Qed.

Lemma includes_same_elements (provided provided' : list jsstring) :
  (∀ s, s ∈ provided ↔ s ∈ provided') →
  ∀ s, includes provided s = includes provided' s.
Proof.
  intros H s. apply eq_true_iff_eq. rewrite !includes_elem_of. apply H.
Qed.

(** X1. The provided list counts as a set: two provided lists with the
    same elements, in any order and with any repetitions, give the same
    result, [missing] included. *)
Theorem validateScopes_provided_set (provided provided' : list jsstring)
    (required anyOf : option (list jsstring)) :
  list_to_set provided =@{gset jsstring} list_to_set provided' →
  validateScopes provided required anyOf = validateScopes provided' required anyOf.
Proof.
  intros Hset. pose proof (includes_same_elements _ _ (same_set_elem_of _ _ Hset)) as Hinc.
  assert (Hall : ∀ l, hasAllScopes provided l = hasAllScopes provided' l).
  { intros l. unfold hasAllScopes. induction l as [|s l IH]; [done|].
    cbn [forallb]. by rewrite Hinc, IH. }
  assert (Hany : ∀ l, hasAnyScope provided l = hasAnyScope provided' l).
  { intros l. unfold hasAnyScope. induction l as [|s l IH]; [done|].
    cbn [existsb]. by rewrite Hinc, IH. }
  assert (Hmissing : ∀ l, List.filter (λ s, negb (includes provided s)) l
                          = List.filter (λ s, negb (includes provided' s)) l).
  { intros l. rewrite !missing_filter. apply list_filter_iff. intros s.
    by rewrite (same_set_elem_of _ _ Hset s). }
  unfold validateScopes, checkAllRequired, checkAnyOf.
  destruct required as [[|r rs]|], anyOf as [[|a rest]|];
    rewrite ?Hall, ?Hany, ?Hmissing; reflexivity.
Qed.

(** X2. Granting more never revokes: a scope check that passes for a
    provided list passes for every list that contains its elements. *)
Theorem validateScopes_monotone (provided provided' : list jsstring)
    (required anyOf : option (list jsstring)) :
  (∀ s, s ∈ provided → s ∈ provided') →
  ScopeValidationResult.valid (validateScopes provided required anyOf) = true →
  ScopeValidationResult.valid (validateScopes provided' required anyOf) = true.
Proof.
  intros Hsub. rewrite !validateScopes_valid_blocks, !checkAllRequired_None, !checkAnyOf_None.
  intros [Hall Hany]. split.
  - intros s Hs. by apply Hsub, Hall.
  - destruct Hany as [Hnil | (s & Hs & Hp)]; [by left|].
    right. exists s. split; [done | by apply Hsub].
Qed.

(** X3. What a failed check reports: [missing] is never empty, none of its
    scopes is provided, and each comes from the requirement list that
    failed, the required list if the all-required check failed and the
    anyOf list otherwise. *)
Theorem validateScopes_missing_sound (provided : list jsstring)
    (required anyOf : option (list jsstring)) :
  ScopeValidationResult.valid (validateScopes provided required anyOf) = false →
  ∃ missing,
    ScopeValidationResult.missing (validateScopes provided required anyOf) = Some missing
    ∧ missing ≠ []
    ∧ (∀ s, s ∈ missing → s ∉ provided)
    ∧ ((∀ s, s ∈ missing → s ∈ default [] required)
       ∨ (checkAllRequired provided required = None ∧ missing = default [] anyOf)).
Proof.
  unfold validateScopes.
  destruct (checkAllRequired provided required) as [r|] eqn:Er.
  - pose proof Er as Hsome. apply checkAllRequired_Some in Hsome. subst r. simpl. intros _.
    eexists. split; [reflexivity|]. split; [|split].
    + intros Hnil.
      assert (Hnone : checkAllRequired provided required = None); [|congruence].
      apply checkAllRequired_None. intros s Hs.
      destruct (decide (s ∈ provided)) as [|Hnot]; [done|]. exfalso.
      assert (Hin : s ∈ filter (λ s, s ∉ provided) (default [] required))
        by (by apply list_elem_of_filter).
      rewrite Hnil in Hin. inversion Hin.
    + intros s Hs. by apply list_elem_of_filter in Hs as [? _].
    + left. intros s Hs. by apply list_elem_of_filter in Hs as [_ ?].
  - destruct (checkAnyOf provided anyOf) as [r|] eqn:Ea; [|discriminate].
    pose proof Ea as Hsome. apply checkAnyOf_Some in Hsome. subst r. simpl. intros _.
    eexists. split; [reflexivity|].
    assert (Hnot : ¬ (default [] anyOf = [] ∨ ∃ s, s ∈ default [] anyOf ∧ s ∈ provided)).
    { rewrite <- checkAnyOf_None. congruence. }
    split; [tauto|]. split; [|by right].
    intros s Hs Hp. apply Hnot. right. by exists s.
Qed.

(** X4. Repairing a key: granting the scopes a failed check reports, and
    then those a second check reports, always gives a key that passes. *)
Theorem validateScopes_repair (provided : list jsstring)
    (required anyOf : option (list jsstring)) :
  let grant p :=
    p ++ default [] (ScopeValidationResult.missing (validateScopes p required anyOf)) in
  ScopeValidationResult.valid (validateScopes (grant (grant provided)) required anyOf) = true.
Proof.
  intros grant.
  assert (Hgrows : ∀ p s, s ∈ p → s ∈ grant p)
    by (intros p s Hs; apply elem_of_app; by left).
  assert (Hrequired : ∀ p, checkAllRequired (grant p) required = None).
  { intros p. apply checkAllRequired_None. intros s Hs.
    destruct (decide (s ∈ p)) as [|Hnot]; [by apply Hgrows|].
    apply elem_of_app. right. unfold validateScopes.
    destruct (checkAllRequired p required) as [r|] eqn:Er.
    - apply checkAllRequired_Some in Er. subst r. simpl. by apply list_elem_of_filter.
    - exfalso. apply Hnot. by apply (proj1 (checkAllRequired_None p required) Er). }
  assert (Hany : ∀ p, checkAllRequired p required = None → checkAnyOf (grant p) anyOf = None).
  { intros p Hp. apply checkAnyOf_None.
    destruct (checkAnyOf p anyOf) as [r|] eqn:Ea.
    - destruct (default [] anyOf) as [|a rest] eqn:Hany; [by left|].
      right. exists a. split; [left|]. apply elem_of_app. right.
      unfold validateScopes. rewrite Hp, Ea.
      apply checkAnyOf_Some in Ea. subst r. simpl. rewrite Hany. left.
    - apply checkAnyOf_None in Ea as [Hnil | (s & Hs & Hin)]; [by left|].
      right. exists s. split; [done | by apply Hgrows]. }
  apply validateScopes_valid_blocks. split; [apply Hrequired | apply Hany, Hrequired].
Qed.

(** X5. The two checks are independent and the all-required check comes
    first: the result is valid exactly when each check alone is, and when
    the all-required check fails the anyOf list has no part in the
    result. *)
Theorem validateScopes_checks_compose (provided : list jsstring)
    (required anyOf : option (list jsstring)) :
  ScopeValidationResult.valid (validateScopes provided required anyOf)
  = ScopeValidationResult.valid (validateScopes provided required None)
    && ScopeValidationResult.valid (validateScopes provided None anyOf)
  ∧ (ScopeValidationResult.valid (validateScopes provided required None) = false →
     ∀ anyOf', validateScopes provided required anyOf'
               = validateScopes provided required None).
Proof.
  unfold validateScopes. cbn [checkAllRequired checkAnyOf].
  destruct (checkAllRequired provided required) as [r|] eqn:Er.
  - apply checkAllRequired_Some in Er. subst r. simpl. split; [reflexivity | done].
  - destruct (checkAnyOf provided anyOf) as [r|] eqn:Ea.
    + apply checkAnyOf_Some in Ea. subst r. simpl. split; [reflexivity | discriminate].
    + simpl. split; [reflexivity | discriminate].
Qed.

(** X6. [hasAnyScope] is symmetric in its two lists, and a key that has
    all the scopes of a non-empty list has one of them. *)
Theorem hasAnyScope_symmetric (provided required : list jsstring) :
  hasAnyScope provided required = hasAnyScope required provided
  ∧ (hasAllScopes provided required = true → required ≠ [] →
     hasAnyScope provided required = true).
Proof.
  split.
  - apply eq_true_iff_eq. rewrite !hasAnyScope_true. split; intros (s & ? & ?); by exists s.
  - rewrite hasAllScopes_true, hasAnyScope_true. intros Hall Hne.
    destruct required as [|s rest]; [done|]. exists s. split; [left | apply Hall; left].
Qed.

(** ** The timing-safe comparison, continued *)

(** X7. [timingSafeCompare] never throws, whatever it is given, although
    [timingSafeEqual] does on buffers of different lengths; it is
    symmetric, and a string compares equal to itself. *)
Theorem timingSafeCompare_never_throws (x y : JsValue) :
  (∃ r, timingSafeCompare x y = Some r)
  ∧ timingSafeCompare x y = timingSafeCompare y x
  ∧ (∀ s, timingSafeCompare (JsString s) (JsString s) = Some true).
Proof.
  split; [|split].
  - destruct x, y; try (by eexists). rewrite timingSafeCompare_strings. by eexists.
  - destruct x, y; try reflexivity. rewrite !timingSafeCompare_strings. f_equal.
    apply eq_true_iff_eq. rewrite !bool_decide_eq_true. split; congruence.
  - intros s. rewrite timingSafeCompare_strings. by rewrite bool_decide_eq_true_2.
Qed.

(** ** Serialised errors *)

(** X8. [toJSON] loses nothing: two errors built by the constructors of
    the four classes and serialised to the same object are the same
    error, although [name] is not serialised. *)
Theorem toJSON_injective (e1 e2 : ApiKeyError) :
  constructed e1 → constructed e2 → toJSON e1 = toJSON e2 → e1 = e2.
Proof.
  intros H1 H2.
  destruct H1 as [|m1|r1 p1|n1], H2 as [|m2|r2 p2|n2];
    cbn; intros H; try reflexivity; try discriminate H.
  - injection H as Hm. unfold new_InvalidApiKeyError. by rewrite Hm.
  - injection H as _ Hr Hp. by subst.
  - injection H as Hn. by subst.
Qed.

(** ** Key generation *)

Lemma base64urlChar_urlSafe d : isUrlSafe (base64urlChar d) = true.
Proof.
  unfold base64urlChar, isUrlSafe.
  destruct (N.ltb_spec d 26).
  { replace ((0x41 <=? 0x41 + d) && (0x41 + d <=? 0x5A)) with true; [done|].
    symmetry. apply andb_true_iff. split; apply N.leb_le; lia. }
  destruct (N.ltb_spec d 52).
  { replace ((0x61 <=? 0x61 + (d - 26)) && (0x61 + (d - 26) <=? 0x7A)) with true;
      [by rewrite orb_true_r|].
    symmetry. apply andb_true_iff. split; apply N.leb_le; lia. }
  destruct (N.ltb_spec d 62).
  { replace ((0x30 <=? 0x30 + (d - 52)) && (0x30 + (d - 52) <=? 0x39)) with true;
      [by rewrite !orb_true_r|].
    symmetry. apply andb_true_iff. split; apply N.leb_le; lia. }
  destruct (N.eqb_spec d 62); reflexivity.
Qed.

(** Induction on a buffer, three bytes at a time. *)
Lemma triples_ind (P : list N → Prop) :
  P [] → (∀ b0, P [b0]) → (∀ b0 b1, P [b0; b1]) →
  (∀ b0 b1 b2 rest, P rest → P (b0 :: b1 :: b2 :: rest)) →
  ∀ bytes, P bytes.
Proof.
  intros H0 H1 H2 H3.
  fix IH 1. intros [|b0 [|b1 [|b2 rest]]]; [exact H0 | apply H1 | apply H2 |].
  apply H3, IH.
Qed.

Lemma base64url_length bytes :
  length (base64url bytes) = ((4 * length bytes + 2) / 3)%nat.
Proof.
  induction bytes as [| | |b0 b1 b2 rest IH] using triples_ind; [reflexivity..|].
  cbn [base64url length]. rewrite IH.
  replace (4 * S (S (S (length rest))) + 2)%nat with ((4 * length rest + 2) + 4 * 3)%nat by lia.
  rewrite Nat.div_add by lia. lia.
Qed.

Lemma base64url_urlSafe bytes :
  Forall (λ u, isUrlSafe u = true) (base64url bytes).
Proof.
  induction bytes as [| | |b0 b1 b2 rest IH] using triples_ind;
    cbn [base64url]; repeat constructor; auto using base64urlChar_urlSafe.
Qed.

Lemma randomBytes_length entropy size bytes :
  randomBytes entropy size = Some bytes → length bytes = Z.to_nat size.
Proof.
  unfold randomBytes. destruct (_ && _); [|discriminate].
  intros [= <-]. by rewrite length_map, length_seq.
Qed.

Lemma ceilDiv_bounds (a : Z) :
  (4 * ceilDiv a 4 - 3 ≤ a ≤ 4 * ceilDiv a 4)%Z.
Proof. unfold ceilDiv. Z.to_euclidean_division_equations. lia. Qed.



Lemma base64urlChar_inj d d' :
  d < 64 → d' < 64 → base64urlChar d = base64urlChar d' → d = d'.
Proof.
  unfold base64urlChar. intros Hd Hd'.
  destruct (N.ltb_spec d 26), (N.ltb_spec d' 26);
    destruct (N.ltb_spec d 52), (N.ltb_spec d' 52); try lia;
    destruct (N.ltb_spec d 62), (N.ltb_spec d' 62); try lia;
    destruct (N.eqb_spec d 62), (N.eqb_spec d' 62); intros Heq; lia.
Qed.

(** The digits of a group give its bytes back. *)
Lemma group_bytes (b0 b1 b2 b0' b1' b2' : N) :
  b0 < 256 → b1 < 256 → b2 < 256 → b0' < 256 → b1' < 256 → b2' < 256 →
  b0 / 4 = b0' / 4 →
  (b0 mod 4) * 16 + b1 / 16 = (b0' mod 4) * 16 + b1' / 16 →
  (b1 mod 16) * 4 + b2 / 64 = (b1' mod 16) * 4 + b2' / 64 →
  b2 mod 64 = b2' mod 64 →
  b0 = b0' ∧ b1 = b1' ∧ b2 = b2'.
Proof.
  intros.
  euclid b0 4; euclid b1 16; euclid b2 64; euclid b0' 4; euclid b1' 16; euclid b2' 64.
  repeat split; fields.
Qed.

Lemma digit_bounds (b0 b1 : N) :
  b0 < 256 → b1 < 256 →
  b0 / 4 < 64 ∧ (b0 mod 4) * 16 + b1 / 16 < 64 ∧ (b0 mod 16) * 4 + b1 / 64 < 64
  ∧ b0 mod 64 < 64.
Proof.
  intros. euclid b0 4; euclid b0 16; euclid b0 64; euclid b1 16; euclid b1 64.
  repeat split; fields.
Qed.

(** Buffers of whole groups with the same encoding are the same. *)
Lemma base64url_inj (n : nat) (bytes bytes' : list N) :
  length bytes = (3 * n)%nat → length bytes' = (3 * n)%nat →
  Forall (λ b, b < 256) bytes → Forall (λ b, b < 256) bytes' →
  base64url bytes = base64url bytes' → bytes = bytes'.
Proof.
  revert bytes bytes'. induction n as [|n IH]; intros bytes bytes' Hlen Hlen' Hb Hb' Heq.
  - destruct bytes, bytes'; simpl in *; done || lia.
  - destruct bytes as [|b0 [|b1 [|b2 rest]]]; simpl in Hlen; try lia.
    destruct bytes' as [|b0' [|b1' [|b2' rest']]]; simpl in Hlen'; try lia.
    cbn [base64url] in Heq. injection Heq as H0 H1 H2 H3 Hrest.
    inversion Hb as [|? ? Hb0 Hb_]; subst. inversion Hb_ as [|? ? Hb1 Hb__]; subst.
    inversion Hb__ as [|? ? Hb2 Hbrest]; subst.
    inversion Hb' as [|? ? Hb0' Hb_']; subst. inversion Hb_' as [|? ? Hb1' Hb__']; subst.
    inversion Hb__' as [|? ? Hb2' Hbrest']; subst.
    destruct (digit_bounds b0 b1 Hb0 Hb1) as (D0 & D1 & _ & _).
    destruct (digit_bounds b1 b2 Hb1 Hb2) as (_ & _ & D2 & _).
    destruct (digit_bounds b0' b1' Hb0' Hb1') as (D0' & D1' & _ & _).
    destruct (digit_bounds b1' b2' Hb1' Hb2') as (_ & _ & D2' & _).
    assert (D3 : b2 mod 64 < 64) by (apply N.mod_lt; lia).
    assert (D3' : b2' mod 64 < 64) by (apply N.mod_lt; lia).
    apply base64urlChar_inj in H0, H1, H2, H3; try assumption.
    destruct (group_bytes b0 b1 b2 b0' b1' b2') as (-> & -> & ->); try assumption.
    f_equal. f_equal. f_equal. apply IH; [lia | lia | done..].
Qed.

(** X11. For a length that is a multiple of four no random bit is lost:
    two runs that return the same key drew the same bytes, so different
    bytes give different keys. *)
Theorem generateApiKey_keeps_entropy (maxStringLength : Z) (entropy entropy' : nat → N)
    (prefix : option jsstring) (groups : nat) :
  let options := {| GenerateOptions.prefix := prefix;
                    GenerateOptions.length := Some (4 * Z.of_nat groups)%Z |} in
  (∀ i, entropy i < 256) → (∀ i, entropy' i < 256) →
  generateApiKey maxStringLength entropy options ≠ None →
  generateApiKey maxStringLength entropy options
  = generateApiKey maxStringLength entropy' options →
  ∀ i, (i < 3 * groups)%nat → entropy i = entropy' i.
Proof.
  intros options Hbytes Hbytes'. unfold generateApiKey, options.
  cbn [GenerateOptions.prefix GenerateOptions.length default from_option id].
  assert (Hsize : ceilDiv (4 * Z.of_nat groups * 3) 4 = Z.of_nat (3 * groups)).
  { pose proof (ceilDiv_bounds (4 * Z.of_nat groups * 3)). lia. }
  rewrite Hsize. unfold randomBytes.
  destruct (_ && _); [|by intros H].
  cbn [mbind option_bind]. rewrite Nat2Z.id.
  set (bytes := List.map entropy (seq 0 (3 * groups))).
  set (bytes' := List.map entropy' (seq 0 (3 * groups))).
  assert (Hlen : length bytes = (3 * groups)%nat) by (unfold bytes; by rewrite length_map, length_seq).
  assert (Hlen' : length bytes' = (3 * groups)%nat)
    by (unfold bytes'; by rewrite length_map, length_seq).
  assert (H64 : ∀ bs, length bs = (3 * groups)%nat → length (base64url bs) = (4 * groups)%nat).
  { intros bs Hbs. rewrite base64url_length, Hbs.
    replace (4 * (3 * groups) + 2)%nat with (2 + (4 * groups) * 3)%nat by lia.
    rewrite Nat.div_add by lia. reflexivity. }
  unfold toString_base64url. rewrite (H64 bytes Hlen), (H64 bytes' Hlen').
  destruct (decide (Z.of_nat (4 * groups) ≤ maxStringLength)%Z); [|by intros H].
  cbn [mbind option_bind]. intros _ [= Hkey].
  assert (Hsame : sliceTo (base64url bytes) (4 * Z.of_nat groups)
                  = sliceTo (base64url bytes') (4 * Z.of_nat groups)).
  { destruct (truthy (default [] prefix)); [|exact Hkey].
    apply app_inv_head in Hkey. by apply (app_inv_head (js "_")) in Hkey. }
  unfold sliceTo in Hsame. destruct (Z.leb_spec 0 (4 * Z.of_nat groups)); [|lia].
  rewrite !take_ge in Hsame by (rewrite H64 by done; lia).
  apply (base64url_inj groups) in Hsame; [|done..| |].
  - intros i Hi.
    assert (Hi' : bytes !! i = bytes' !! i) by (by rewrite Hsame).
    unfold bytes, bytes' in Hi'. rewrite !list_lookup_fmap in Hi'.
    rewrite !lookup_seq_lt in Hi' by done. simpl in Hi'. congruence.
  - unfold bytes. apply List.Forall_forall. intros b Hb.
    apply in_map_iff in Hb as (i & <- & _). apply Hbytes.
  - unfold bytes'. apply List.Forall_forall. intros b Hb.
    apply in_map_iff in Hb as (i & <- & _). apply Hbytes'.
Qed.

(** ** Registration *)

(** X22. Registration succeeds exactly when the decorator name and
    [apiKeyScopes] are two different names, neither declared on requests
    yet, and [apiKey] and [requireApiKey] are not declared on the instance
    yet. *)
Theorem fastifyApiKeyPlugin_succeeds (options : FastifyApiKeyOptions.t)
    (fastify : FastifyInstance.t) :
  is_Some (fastifyApiKeyPlugin options fastify)
  ↔ decoratorName options ≠ js "apiKeyScopes"
    ∧ (decoratorName options ∉ FastifyInstance.requestDecorators fastify)
    ∧ (js "apiKeyScopes" ∉ FastifyInstance.requestDecorators fastify)
    ∧ (js "apiKey" ∉ FastifyInstance.instanceDecorators fastify)
    ∧ (js "requireApiKey" ∉ FastifyInstance.instanceDecorators fastify).
Proof.
  unfold fastifyApiKeyPlugin, FastifyInstance.decorateRequest, FastifyInstance.decorate.
  destruct (decide (decoratorName options ∈ FastifyInstance.requestDecorators fastify))
    as [Hname | Hname]; cbn [mbind option_bind].
  { split; [intros [? H]; discriminate | tauto]. }
  cbn [FastifyInstance.requestDecorators FastifyInstance.instanceDecorators].
  destruct (decide (js "apiKeyScopes" ∈ {[decoratorName options]}
                                        ∪ FastifyInstance.requestDecorators fastify))
    as [Hscopes | Hscopes]; cbn [mbind option_bind].
  { split; [intros [? H]; discriminate|]. intros (Hne & _ & Hfree & _).
    apply elem_of_union in Hscopes as [Hin | Hin]; [|done].
    apply elem_of_singleton in Hin. congruence. }
  cbn [FastifyInstance.requestDecorators FastifyInstance.instanceDecorators].
  destruct (decide (js "apiKey" ∈ FastifyInstance.instanceDecorators fastify))
    as [Hguard | Hguard]; cbn [mbind option_bind].
  { split; [intros [? H]; discriminate | tauto]. }
  cbn [FastifyInstance.requestDecorators FastifyInstance.instanceDecorators].
  destruct (decide (js "requireApiKey" ∈ {[js "apiKey"]}
                                         ∪ FastifyInstance.instanceDecorators fastify))
    as [Halias | Halias].
  { split; [intros [? H]; discriminate|]. intros (_ & _ & _ & _ & Hfree).
    apply elem_of_union in Halias as [Halias | Halias]; [|done].
    apply elem_of_singleton in Halias. discriminate. }
  split; [|by eexists]. intros _. repeat split; [|done|set_solver|done|set_solver].
  intros Heq. apply Hscopes. rewrite Heq. set_solver.
Qed.

Lemma fastifyApiKeyPlugin_needs_free options fastify :
  is_Some (fastifyApiKeyPlugin options fastify) →
  js "apiKeyScopes" ∉ FastifyInstance.requestDecorators fastify.
Proof.
  unfold fastifyApiKeyPlugin, FastifyInstance.decorateRequest.
  destruct (decide (decoratorName options ∈ FastifyInstance.requestDecorators fastify));
    cbn [mbind option_bind]; [intros [? H]; discriminate|].
  cbn [FastifyInstance.requestDecorators].
  destruct (decide (js "apiKeyScopes" ∈ {[decoratorName options]}
                                        ∪ FastifyInstance.requestDecorators fastify));
    cbn [mbind option_bind]; [intros [? H]; discriminate|].
  intros _. set_solver.
Qed.

(** X23. The plugin cannot be registered twice on one instance: after a
    successful registration, a second one, with any options, throws. *)
Theorem fastifyApiKeyPlugin_once (options options' : FastifyApiKeyOptions.t)
    (fastify fastify' : FastifyInstance.t) :
  fastifyApiKeyPlugin options fastify = Some fastify' →
  fastifyApiKeyPlugin options' fastify' = None.
Proof.
  intros Hfirst.
  assert (Hdeclared : js "apiKeyScopes" ∈ FastifyInstance.requestDecorators fastify').
  { revert Hfirst.
    unfold fastifyApiKeyPlugin, FastifyInstance.decorateRequest, FastifyInstance.decorate.
    repeat (case_decide; cbn [mbind option_bind FastifyInstance.requestDecorators
                                FastifyInstance.instanceDecorators]; try discriminate).
    intros [= <-]. cbn. set_solver. }
  destruct (fastifyApiKeyPlugin options' fastify') as [fastify''|] eqn:Hsecond; [|done].
  assert (Hsome : is_Some (fastifyApiKeyPlugin options' fastify')) by (by eexists).
  by apply fastifyApiKeyPlugin_needs_free in Hsome.
Qed.

(** ** Extraction, continued *)

Section GuardBehaviour.

Variable toLowerCase : jsstring -> jsstring.

Local Abbreviation sourceValue := (sourceValue toLowerCase).
Local Abbreviation extractFromSource := (extractFromSource toLowerCase).
Local Abbreviation extractApiKey := (extractApiKey toLowerCase).
Local Abbreviation createGuard := (createGuard toLowerCase).
Local Abbreviation requireApiKey := (requireApiKey toLowerCase).
Local Abbreviation accepted := (accepted toLowerCase).

Lemma trimStart_whitespace (s : jsstring) :
  Forall (λ u, isWhiteSpace u = true) s → trimStart s = [].
Proof. induction 1 as [|u s Hu _ IH]; [done|]. simpl. by rewrite Hu. Qed.

Lemma trim_whitespace (s : jsstring) :
  Forall (λ u, isWhiteSpace u = true) s → trim s = [].
Proof. intros H. unfold trim, trimEnd. by rewrite (trimStart_whitespace s H). Qed.

Lemma extractFromSource_trim request source key :
  extractFromSource request source = Normal (Some key) → ∃ value, key = trim value.
Proof.
  unfold extractFromSource.
  destruct (negb (toBoolean (sourceValue request source))); [discriminate|].
  destruct (sourceValue request source) as [| | | |value| |]; try discriminate.
  destruct (ApiKeySource.prefix source) as [prefix|]; [|intros [= <-]; by eexists].
  destruct (truthy prefix && startsWith value prefix); intros [= <-]; by eexists.
Qed.

(** X12. An extracted key is never empty and never starts or ends with
    whitespace. *)
Theorem extractApiKey_trimmed (request : FastifyRequest.t) (sources : list ApiKeySource.t)
    (key : jsstring) :
  extractApiKey request sources = Normal (Some key) →
  key ≠ []
  ∧ (∀ u, head key = Some u → isWhiteSpace u = false)
  ∧ (∀ u, last key = Some u → isWhiteSpace u = false).
Proof.
  intros H.
  destruct (extractApiKey_Some_inv toLowerCase _ _ _ H) as (_ & source & _ & _ & _ & Hs & Hne).
  split; [exact Hne|].
  destruct (extractFromSource_trim _ _ _ Hs) as [value ->].
  destruct (trim_split value) as (_ & _ & _ & _ & _ & Hhead & Hlast). by split.
Qed.

(** X13. A source whose value is whitespace only, or its prefix followed
    by whitespace only, counts as having no key: extraction goes on with
    the sources after it. *)
Theorem extractApiKey_skips_blank (request : FastifyRequest.t) (source : ApiKeySource.t)
    (rest : list ApiKeySource.t) (value : jsstring) :
  sourceValue request source = JsString value →
  Forall (λ u, isWhiteSpace u = true) value
  ∨ (∃ prefix blank, ApiKeySource.prefix source = Some prefix
                     ∧ value = prefix ++ blank
                     ∧ Forall (λ u, isWhiteSpace u = true) blank) →
  extractApiKey request (source :: rest) = extractApiKey request rest.
Proof.
  intros Hvalue Hblank. apply extractApiKey_cons_skip.
  unfold skipped, extractFromSource. rewrite Hvalue. cbn [toBoolean].
  destruct (negb (truthy value)); [by left|]. right.
  destruct Hblank as [Hws | (prefix & blank & Hprefix & -> & Hws)].
  - destruct (ApiKeySource.prefix source) as [prefix|];
      [|by rewrite trim_whitespace].
    destruct (startsWith value prefix) eqn:E.
    + apply startsWith_app in E as [tail ->].
      apply Forall_app in Hws as [Hprefix Htail].
      destruct prefix as [|p prefix]; cbn [truthy andb].
      * by rewrite trim_whitespace.
      * rewrite slice_prefix. by rewrite trim_whitespace.
    + rewrite andb_false_r. by rewrite trim_whitespace.
  - rewrite Hprefix.
    rewrite (proj2 (startsWith_app (prefix ++ blank) prefix)) by (by exists blank).
    destruct prefix as [|p prefix]; cbn [truthy andb].
    + by rewrite trim_whitespace.
    + rewrite slice_prefix. by rewrite trim_whitespace.
Qed.

(** X14. Source lists compose: extraction over two lists put one after
    the other is extraction over the first and, only if that finds
    nothing, over the second. *)
Theorem extractApiKey_app (request : FastifyRequest.t) (first second : list ApiKeySource.t) :
  extractApiKey request (first ++ second)
  = match extractApiKey request first with
    | Normal (Some key) => Normal (Some key)
    | Normal None => extractApiKey request second
    | Throw t => Throw t
    end.
Proof.
  induction first as [|source first IH]; [reflexivity|]. simpl.
  destruct (extractFromSource request source) as [[key|]|t]; [|exact IH|reflexivity].
  destruct (truthy key); [reflexivity | exact IH].
Qed.

Lemma set_other property data request :
  property ∉ readBySources →
  FastifyRequest.set property data request
  = {| FastifyRequest.headers := FastifyRequest.headers request;
       FastifyRequest.query := FastifyRequest.query request;
       FastifyRequest.body := FastifyRequest.body request;
       FastifyRequest.cookies := FastifyRequest.cookies request;
       FastifyRequest.decorations :=
         <[property := DecoratedApiKeyData data]> (FastifyRequest.decorations request) |}.
Proof.
  intros Hother. unfold FastifyRequest.set.
  repeat (destruct (decide (property = _)) as [Heq|_];
          [destruct Hother; rewrite Heq; unfold readBySources;
           rewrite !elem_of_cons; tauto|]).
  reflexivity.
Qed.

Lemma extractApiKey_set property data request sources :
  property ∉ readBySources →
  extractApiKey (FastifyRequest.set property data request) sources
  = extractApiKey request sources.
Proof.
  intros Hother. rewrite (set_other _ _ _ Hother).
  induction sources as [|source rest IH]; [reflexivity|]. simpl. by rewrite IH.
Qed.

Lemma extractApiKey_setApiKeyScopes scopes request sources :
  extractApiKey (FastifyRequest.setApiKeyScopes scopes request) sources
  = extractApiKey request sources.
Proof. induction sources as [|source rest IH]; [reflexivity|]. simpl. by rewrite IH. Qed.

(** ** The guard, continued *)

(** The five ways an invocation can go up to the hook. *)
Lemma createGuard_paths options guardOptions request :
  (∃ t,
     extractApiKey request (sources options) = Throw t
     ∧ invoke (createGuard options guardOptions) request
       = (Throw t, {| st_request := request; st_calls := [] |}))
  ∨ (extractApiKey request (sources options) = Normal None
     ∧ invoke (createGuard options guardOptions) request
       = (if shouldAllowAnonymous options guardOptions then ret tt
          else handleOrThrow options new_MissingApiKeyError)
           {| st_request := request; st_calls := [] |})
  ∨ (∃ key t,
       extractApiKey request (sources options) = Normal (Some key)
       ∧ validate options key request = Throw t
       ∧ invoke (createGuard options guardOptions) request
         = (Throw t, {| st_request := request; st_calls := [CallValidate key] |}))
  ∨ (∃ key result hook t,
       extractApiKey request (sources options) = Normal (Some key)
       ∧ validate options key request = Normal result
       ∧ onValidation options = Some hook
       ∧ hook key result request = Throw t
       ∧ invoke (createGuard options guardOptions) request
         = (Throw t, {| st_request := request;
                        st_calls := [CallValidate key; CallOnValidation key result] |}))
  ∨ (∃ key result,
       extractApiKey request (sources options) = Normal (Some key)
       ∧ validate options key request = Normal result
       ∧ hookReturns options key result request).
Proof.
  destruct (extractApiKey request (sources options)) as [[key|]|t] eqn:Hkey.
  2: { right. left. split; [done|]. unfold invoke, createGuard, bind, getRequest, call.
       cbn [st_request]. by rewrite Hkey. }
  2: { left. exists t. split; [done|]. unfold invoke, createGuard, bind, getRequest, call.
       cbn [st_request]. by rewrite Hkey. }
  right. right.
  destruct (validate options key request) as [result|t] eqn:Hvalidate.
  2: { left. exists key, t. split; [done|]. split; [done|].
       by apply createGuard_validator_throws. }
  unfold hookReturns. destruct (onValidation options) as [hook|] eqn:Hook.
  - destruct (hook key result request) as [[]|t] eqn:Hhook.
    + right. right. by exists key, result.
    + right. left. exists key, result, hook, t. repeat (split; [done|]).
      by apply createGuard_hook_throws with (hook := hook).
  - right. right. by exists key, result.
Qed.

Lemma handleOrThrow_calls options error st :
  st_calls (handleOrThrow options error st).2
  = st_calls st ++ match errorHandler options with
                   | Some _ => [CallErrorHandler error]
                   | None => []
                   end.
Proof.
  unfold handleOrThrow. destruct (errorHandler options) as [handler|].
  - unfold bind, await, ret; simpl. by destruct (handler error (st_request st)).
  - simpl. by rewrite app_nil_r.
Qed.

(** The request an invocation leaves: the one it was given, or that one
    with the two properties set. *)
Lemma createGuard_request_shape options guardOptions request :
  let request' := st_request (invoke (createGuard options guardOptions) request).2 in
  request' = request
  ∨ ∃ data scopes,
      request' = FastifyRequest.setApiKeyScopes scopes
                   (FastifyRequest.set (decoratorName options) data request).
Proof.
  intros request'. subst request'.
  destruct (createGuard_accepted_or_unchanged toLowerCase options guardOptions request)
    as [(key & result & Hkey & Hvalidate & Hhook & Hvalid & Hscopes) | Hsame]; [|by left].
  right. rewrite (createGuard_validated _ _ guardOptions _ _ _ Hkey Hvalidate Hhook).
  cbn zeta. rewrite Hvalid, Hscopes. by eexists _, _.
Qed.


(** X16. The order of the callbacks: the validator is called if and only
    if a key was extracted, first and with that key; the hook, when there
    is one, exactly when the validator returned, with what it returned;
    and the error handler at most once, last. *)
Theorem createGuard_call_order (options : FastifyApiKeyOptions.t)
    (guardOptions : ApiKeyGuardOptions.t) (request : FastifyRequest.t) :
  let calls := st_calls (invoke (createGuard options guardOptions) request).2 in
  ∃ handled,
    (handled = [] ∨ ∃ error, errorHandler options ≠ None ∧ handled = [CallErrorHandler error])
    ∧ match extractApiKey request (sources options) with
      | Throw _ => calls = [] ∧ handled = []
      | Normal None => calls = handled
      | Normal (Some key) =>
          match validate options key request with
          | Throw _ => calls = [CallValidate key] ∧ handled = []
          | Normal result =>
              calls = CallValidate key
                        :: match onValidation options with
                           | Some _ => [CallOnValidation key result]
                           | None => []
                           end ++ handled
          end
      end.
Proof.
  intros calls. subst calls.
  assert (Hhandled : ∀ error before,
             ∃ handled,
               (handled = [] ∨ ∃ error, errorHandler options ≠ None
                                        ∧ handled = [CallErrorHandler error])
               ∧ st_calls (handleOrThrow options error
                             {| st_request := request; st_calls := before |}).2
                 = before ++ handled).
  { intros error before. rewrite handleOrThrow_calls. cbn [st_calls].
    destruct (errorHandler options) as [handler|] eqn:Handler.
    - exists [CallErrorHandler error]. split; [|done]. right. by exists error.
    - exists []. split; [by left | done]. }
  destruct (createGuard_paths options guardOptions request)
    as [(t & Hkey & Hrun) | [(Hkey & Hrun) | [(key & t & Hkey & Hvalidate & Hrun)
       | [(key & result & hook & t & Hkey & Hvalidate & Hook & Hhook & Hrun)
       | (key & result & Hkey & Hvalidate & Hhook)]]]].
  - rewrite Hkey, Hrun. exists []. split; [by left | done].
  - rewrite Hkey, Hrun. destruct (shouldAllowAnonymous options guardOptions).
    + exists []. split; [by left | done].
    + destruct (Hhandled new_MissingApiKeyError []) as (handled & Hh & ->).
      by exists handled.
  - rewrite Hkey, Hvalidate, Hrun. exists []. split; [by left | done].
  - rewrite Hkey, Hvalidate, Hrun, Hook. exists []. split; [by left | done].
  - rewrite Hkey, Hvalidate.
    rewrite (createGuard_validated _ _ guardOptions _ _ _ Hkey Hvalidate Hhook). cbn zeta.
    unfold validationCalls.
    destruct (ApiKeyValidationResult.valid result).
    + destruct (ScopeValidationResult.valid _).
      * exists []. split; [by left|]. cbn [snd st_calls]. by rewrite app_nil_r.
      * match goal with
        | |- context [handleOrThrow options ?e ?st] =>
            destruct (Hhandled e (st_calls st)) as (handled & Hh & Hcalls)
        end.
        exists handled. split; [done|]. exact Hcalls.
    + destruct (shouldAllowAnonymous options guardOptions).
      * exists []. split; [by left|]. cbn [snd st_calls]. by rewrite app_nil_r.
      * match goal with
        | |- context [handleOrThrow options ?e ?st] =>
            destruct (Hhandled e (st_calls st)) as (handled & Hh & Hcalls)
        end.
        exists handled. split; [done|]. exact Hcalls.
Qed.

(** X17. An exception of the validator or of the hook ends the invocation
    as it is: the guard throws what the callback threw, leaves the request
    untouched and does not call the error handler, also on a route that
    allows anonymous access. *)
Theorem createGuard_callback_exception (options : FastifyApiKeyOptions.t)
    (guardOptions : ApiKeyGuardOptions.t) (request : FastifyRequest.t)
    (key : jsstring) (t : Thrown) :
  extractApiKey request (sources options) = Normal (Some key) →
  validate options key request = Throw t
  ∨ (∃ result hook, validate options key request = Normal result
                    ∧ onValidation options = Some hook
                    ∧ hook key result request = Throw t) →
  let outcome := invoke (createGuard options guardOptions) request in
  outcome.1 = Throw t
  ∧ st_request outcome.2 = request
  ∧ ∀ error, CallErrorHandler error ∉ st_calls outcome.2.
Proof.
  intros Hkey [Hvalidate | (result & hook & Hvalidate & Hook & Hhook)] outcome;
    subst outcome.
  - rewrite (createGuard_validator_throws _ _ guardOptions _ _ _ Hkey Hvalidate).
    repeat split. intros error Hin. apply list_elem_of_singleton in Hin. discriminate.
  - rewrite (createGuard_hook_throws _ _ guardOptions _ _ _ _ _ Hkey Hvalidate Hook Hhook).
    repeat split. intros error Hin.
    apply elem_of_cons in Hin as [Hin | Hin]; [discriminate|].
    apply list_elem_of_singleton in Hin. discriminate.
Qed.

(** X18. The error handler is only ever given the guard's own three
    errors: MISSING_API_KEY or INVALID_API_KEY with status 401, or
    INSUFFICIENT_SCOPES with status 403; never a rate-limit error and
    never what a callback threw. *)
Theorem createGuard_handler_errors (options : FastifyApiKeyOptions.t)
    (guardOptions : ApiKeyGuardOptions.t) (request : FastifyRequest.t)
    (error : ApiKeyError) :
  CallErrorHandler error ∈ st_calls (invoke (createGuard options guardOptions) request).2 →
  (code error = js "MISSING_API_KEY" ∧ statusCode error = 401%Z)
  ∨ (code error = js "INVALID_API_KEY" ∧ statusCode error = 401%Z)
  ∨ (code error = js "INSUFFICIENT_SCOPES" ∧ statusCode error = 403%Z).
Proof.
  assert (Hhandled : ∀ e before,
             (∀ e', CallErrorHandler e' ∉ before) →
             CallErrorHandler error
               ∈ st_calls (handleOrThrow options e
                             {| st_request := request; st_calls := before |}).2 →
             error = e).
  { intros e before Hbefore. rewrite handleOrThrow_calls. cbn [st_calls].
    intros Hin. apply elem_of_app in Hin as [Hin | Hin]; [by destruct (Hbefore error)|].
    destruct (errorHandler options); [|by apply elem_of_nil in Hin].
    apply list_elem_of_singleton in Hin. congruence. }
  assert (Hvalidation : ∀ key result e',
             CallErrorHandler e' ∉ validationCalls options key result).
  { intros key result e' Hin. unfold validationCalls in Hin.
    apply elem_of_cons in Hin as [Hin | Hin]; [discriminate|].
    destruct (onValidation options); [|by apply elem_of_nil in Hin].
    apply list_elem_of_singleton in Hin. discriminate. }
  destruct (createGuard_paths options guardOptions request)
    as [(t & Hkey & Hrun) | [(Hkey & Hrun) | [(key & t & Hkey & Hvalidate & Hrun)
       | [(key & result & hook & t & Hkey & Hvalidate & Hook & Hhook & Hrun)
       | (key & result & Hkey & Hvalidate & Hhook)]]]].
  - rewrite Hrun. intros Hin. by apply elem_of_nil in Hin.
  - rewrite Hrun. destruct (shouldAllowAnonymous options guardOptions).
    + intros Hin. by apply elem_of_nil in Hin.
    + intros Hin. apply Hhandled in Hin as ->; [by left|].
      intros e' He'. by apply elem_of_nil in He'.
  - rewrite Hrun. intros Hin. apply list_elem_of_singleton in Hin. discriminate.
  - rewrite Hrun. intros Hin. apply elem_of_cons in Hin as [Hin | Hin]; [discriminate|].
    apply list_elem_of_singleton in Hin. discriminate.
  - rewrite (createGuard_validated _ _ guardOptions _ _ _ Hkey Hvalidate Hhook). cbn zeta.
    destruct (ApiKeyValidationResult.valid result).
    + destruct (ScopeValidationResult.valid _).
      * intros Hin. by apply Hvalidation in Hin.
      * intros Hin. apply Hhandled in Hin as ->; [by right; right | apply Hvalidation].
    + destruct (shouldAllowAnonymous options guardOptions).
      * intros Hin. by apply Hvalidation in Hin.
      * intros Hin. apply Hhandled in Hin as ->; [by right; left | apply Hvalidation].
Qed.

(** X19. With a custom error handler that returns, the guard itself
    throws nothing but what extraction throws: when the validator and the
    hook return, an invocation returns if extraction returns, a rejected
    one included, and throws what extraction throws if it throws. *)
Theorem createGuard_handled_returns (options : FastifyApiKeyOptions.t)
    (guardOptions : ApiKeyGuardOptions.t) (request : FastifyRequest.t)
    (handler : ApiKeyErrorHandler) :
  errorHandler options = Some handler →
  (∀ error, handler error request = Normal tt) →
  (∀ key, ∃ result, validate options key request = Normal result
                    ∧ hookReturns options key result request) →
  (invoke (createGuard options guardOptions) request).1
  = match extractApiKey request (sources options) with
    | Normal _ => Normal tt
    | Throw t => Throw t
    end.
Proof.
  intros Handler Hreturns Hcallbacks.
  assert (Hhandled : ∀ e before,
             (handleOrThrow options e {| st_request := request; st_calls := before |}).1
             = Normal tt).
  { intros e before. unfold handleOrThrow. rewrite Handler.
    unfold bind, await, ret. cbn [st_request]. by rewrite Hreturns. }
  destruct (createGuard_paths options guardOptions request)
    as [(t & Hkey & Hrun) | [(Hkey & Hrun) | [(key & t & Hkey & Hvalidate & Hrun)
       | [(key & result & hook & t & Hkey & Hvalidate & Hook & Hhook & Hrun)
       | (key & result & Hkey & Hvalidate & Hhook)]]]].
  - by rewrite Hrun, Hkey.
  - rewrite Hrun, Hkey. destruct (shouldAllowAnonymous options guardOptions); [done|].
    apply Hhandled.
  - destruct (Hcallbacks key) as (result & Hresult & _). congruence.
  - destruct (Hcallbacks key) as (result' & Hresult & Hhook').
    assert (result' = result) as -> by congruence.
    unfold hookReturns in Hhook'. rewrite Hook in Hhook'. congruence.
  - rewrite (createGuard_validated _ _ guardOptions _ _ _ Hkey Hvalidate Hhook). cbn zeta.
    rewrite Hkey.
    destruct (ApiKeyValidationResult.valid result).
    + destruct (ScopeValidationResult.valid _); [done | apply Hhandled].
    + destruct (shouldAllowAnonymous options guardOptions); [done | apply Hhandled].
Qed.



End GuardBehaviour.

(** * The statements on sample data *)

(** Cases of the repository's tests. *)
Example extract_trims_whitespace :
  extractApiKey asciiLowerCase
    {| FastifyRequest.headers := ParsedObject true {[ js "x-api-key" := JsString (js "  spaced-key  ") ]};
       FastifyRequest.query := Some (ParsedObject true ∅); FastifyRequest.body := None;
       FastifyRequest.cookies := None; FastifyRequest.decorations := ∅ |}
    DEFAULT_SOURCES
  = Normal (Some (js "spaced-key")).
Proof. reflexivity. Qed.

Example extract_first_of_array_header :
  extractApiKey asciiLowerCase
    {| FastifyRequest.headers :=
         ParsedObject true
           {[ js "x-api-key" := JsArray [JsString (js "first-key"); JsString (js "second-key")] ]};
       FastifyRequest.query := Some (ParsedObject true ∅); FastifyRequest.body := None;
       FastifyRequest.cookies := None; FastifyRequest.decorations := ∅ |}
    DEFAULT_SOURCES
  = Normal (Some (js "first-key")).
Proof. reflexivity. Qed.

Example extract_ignores_non_string_query :
  extractApiKey asciiLowerCase
    {| FastifyRequest.headers := ParsedObject true ∅;
       FastifyRequest.query := Some (ParsedObject true {[ js "api_key" := JsNumber 123 ]});
       FastifyRequest.body := None;
       FastifyRequest.cookies := None; FastifyRequest.decorations := ∅ |}
    [ {| ApiKeySource.type := Query; ApiKeySource.name := js "api_key";
         ApiKeySource.prefix := None |} ]
  = Normal None.
Proof. reflexivity. Qed.

Example extract_header_before_query :
  extractApiKey asciiLowerCase
    {| FastifyRequest.headers := ParsedObject true {[ js "x-api-key" := JsString (js "header-key") ]};
       FastifyRequest.query := Some (ParsedObject true {[ js "api_key" := JsString (js "query-key") ]});
       FastifyRequest.body := None;
       FastifyRequest.cookies := None; FastifyRequest.decorations := ∅ |}
    [ {| ApiKeySource.type := Header; ApiKeySource.name := js "X-API-Key";
         ApiKeySource.prefix := None |};
      {| ApiKeySource.type := Query; ApiKeySource.name := js "api_key";
         ApiKeySource.prefix := None |} ]
  = Normal (Some (js "header-key")).
Proof. reflexivity. Qed.

Example extract_from_body_and_cookie :
  let request body cookies :=
    {| FastifyRequest.headers := ParsedObject true ∅;
       FastifyRequest.query := Some (ParsedObject true ∅);
       FastifyRequest.body := body; FastifyRequest.cookies := cookies;
       FastifyRequest.decorations := ∅ |} in
  extractApiKey asciiLowerCase
    (request (Some (ParsedObject true {[ js "apiKey" := JsString (js "body-key") ]})) None)
    [sourceNamed Body (js "apiKey")]
  = Normal (Some (js "body-key"))
  ∧ extractApiKey asciiLowerCase (request None None) [sourceNamed Body (js "apiKey")]
    = Normal None
  ∧ extractApiKey asciiLowerCase
      (request (Some (ParsedObject true {[ js "apiKey" := JsObject ]})) None)
      [sourceNamed Body (js "apiKey")]
    = Normal None
  ∧ extractApiKey asciiLowerCase
      (request None (Some (ParsedObject true {[ js "api_key" := JsString (js "cookie-key") ]})))
      [sourceNamed Cookie (js "api_key")]
    = Normal (Some (js "cookie-key"))
  ∧ extractApiKey asciiLowerCase (request None None) [sourceNamed Cookie (js "api_key")]
    = Normal None.
Proof. cbn zeta. repeat split. Qed.

Example timingSafeCompare_tests :
  timingSafeCompare (JsString (js "api_key_123")) (JsString (js "api_key_123")) = Some true
  ∧ timingSafeCompare (JsString (js "api_key_123")) (JsString (js "api_key_456")) = Some false
  ∧ timingSafeCompare (JsString (js "a")) (JsString (js "ab")) = Some false
  ∧ timingSafeCompare (JsString []) (JsString []) = Some true
  ∧ timingSafeCompare JsNull (JsString (js "test")) = Some false
  ∧ timingSafeCompare (JsNumber 123) (JsNumber 123) = Some false.
Proof. repeat split. Qed.

(** C1. The route requires [scopes: read, write] and
    [anyScope: admin, superuser]; the key holds read and write. The
    all-required check passes and only the anyOf check fails, yet the
    error carries the required scopes, not the anyScope set. *)
Theorem createGuard_anyScope_failure_requiredScopes :
  let provided := [js "read"; js "write"] in
  let options := sampleOptions (sampleResult true provided) in
  checkAllRequired provided (ApiKeyGuardOptions.scopes adminWriteRoute) = None
  ∧ validateScopes provided (ApiKeyGuardOptions.scopes adminWriteRoute)
      (ApiKeyGuardOptions.anyScope adminWriteRoute)
    = {| ScopeValidationResult.valid := false;
         ScopeValidationResult.missing := Some [js "admin"; js "superuser"] |}
  ∧ invoke (createGuard asciiLowerCase options adminWriteRoute) sampleRequest
    = (Throw (ThrownApiKeyError
                (new_InsufficientScopesError [js "read"; js "write"] provided)),
       {| st_request := sampleRequest; st_calls := [CallValidate (js "rw-only-key")] |})
  ∧ requiredScopes (new_InsufficientScopesError [js "read"; js "write"] provided)
    ≠ ApiKeyGuardOptions.anyScope adminWriteRoute.
Proof.
  cbn zeta. split; [reflexivity|]. split; [reflexivity|]. split; [reflexivity|].
  discriminate.
Qed.

(** C4. A header source named after a property that every object
    inherits, here [constructor]: on the request of the tests, which holds
    no key, the value read is the function [Object], and extraction throws
    a [TypeError] where the claim has it produce absent; put before the
    default source on a request that holds a key, it makes extraction
    throw where the claim has it return that key. A query source of the
    same name is skipped, the value being checked to be a string there. *)
Theorem extractApiKey_inherited_property_throws :
  let inherited := sourceNamed Header (js "constructor") in
  sourceValue asciiLowerCase bareRequest inherited = JsObject
  ∧ extractFromSource asciiLowerCase bareRequest inherited = Throw ThrownTypeError
  ∧ extractApiKey asciiLowerCase bareRequest [inherited] = Throw ThrownTypeError
  ∧ extractApiKey asciiLowerCase bareRequest [inherited] ≠ Normal None
  ∧ extractApiKey asciiLowerCase sampleRequest DEFAULT_SOURCES
    = Normal (Some (js "rw-only-key"))
  ∧ extractApiKey asciiLowerCase sampleRequest (inherited :: DEFAULT_SOURCES)
    = Throw ThrownTypeError
  ∧ extractApiKey asciiLowerCase bareRequest [sourceNamed Query (js "constructor")]
    = Normal None.
Proof. cbn zeta. repeat split. discriminate. Qed.

(** A plugin configured with [decoratorName: 'cookies'] on a server
    without a cookie plugin: the guard assigns the context to the property
    a cookie source reads, so that a second extraction finds the context's
    fields there. *)
Example createGuard_decorator_read_by_source :
  let options := namedOptions (js "cookies") (sampleResult true [js "read"]) in
  let request' :=
    st_request (invoke (createGuard asciiLowerCase options ApiKeyGuardOptions.empty)
                  sampleRequest).2 in
  extractApiKey asciiLowerCase sampleRequest [sourceNamed Cookie (js "key")] = Normal None
  ∧ extractApiKey asciiLowerCase request' [sourceNamed Cookie (js "key")]
    = Normal (Some (js "[REDACTED]"))
  ∧ extractApiKey asciiLowerCase request' [sourceNamed Cookie (js "scopes")]
    = Throw ThrownTypeError.
Proof. cbn zeta. repeat split. Qed.

Lemma validateScopes_duplicates_witness :
  list_to_set [js "read"; js "write"; js "read"] =@{gset jsstring}
    list_to_set [js "write"; js "read"]
  ∧ ScopeValidationResult.valid (validateScopes [js "read"]
                (Some [js "read"; js "write"; js "read"]) (Some [js "admin"; js "admin"]))
    = ScopeValidationResult.valid (validateScopes [js "read"]
                  (Some [js "write"; js "read"]) (Some [js "admin"])).
Proof.
  assert (H1 : list_to_set (default [] (Some [js "read"; js "write"; js "read"]))
               =@{gset jsstring} list_to_set (default [] (Some [js "write"; js "read"])))
    by (vm_compute; reflexivity).
  assert (H2 : list_to_set (default [] (Some [js "admin"; js "admin"]))
               =@{gset jsstring} list_to_set (default [] (Some [js "admin"])))
    by (vm_compute; reflexivity).
  split; [exact H1|].
  exact (proj1 (validateScopes_duplicates [js "read"] _ _ _ _ H1 H2)).
Defined.

(** The two cases of the spec, the header value "ApiKey my-secret" read
    with the prefix "ApiKey " and with the prefix "Bearer "; and the same
    two prefixes on a header with whitespace after the prefix and after
    the key, "ApiKey   my-secret  ". *)
Lemma extractFromSource_prefix_witness :
  let authorization prefix :=
    {| ApiKeySource.type := Header; ApiKeySource.name := js "Authorization";
       ApiKeySource.prefix := Some (js prefix) |} in
  (∃ key, extractFromSource asciiLowerCase sampleRequest (authorization "ApiKey "%string)
          = Normal (Some key)
          ∧ trimmed (js "my-secret") key)
  ∧ extractFromSource asciiLowerCase sampleRequest (authorization "ApiKey "%string)
    = Normal (Some (js "my-secret"))
  ∧ (∃ key, extractFromSource asciiLowerCase sampleRequest (authorization "Bearer "%string)
            = Normal (Some key)
            ∧ trimmed (js "ApiKey my-secret") key)
  ∧ extractFromSource asciiLowerCase sampleRequest (authorization "Bearer "%string)
    = Normal (Some (js "ApiKey my-secret"))
  ∧ (∃ key, extractFromSource asciiLowerCase paddedRequest (authorization "ApiKey "%string)
            = Normal (Some key)
            ∧ trimmed (js "  my-secret  ") key)
  ∧ extractFromSource asciiLowerCase paddedRequest (authorization "ApiKey "%string)
    = Normal (Some (js "my-secret"))
  ∧ (∃ key, extractFromSource asciiLowerCase paddedRequest (authorization "Bearer "%string)
            = Normal (Some key)
            ∧ trimmed (js "ApiKey   my-secret  ") key)
  ∧ extractFromSource asciiLowerCase paddedRequest (authorization "Bearer "%string)
    = Normal (Some (js "ApiKey   my-secret")).
Proof.
  cbn zeta.
  split; [|split; [reflexivity|]].
  { destruct (extractFromSource_prefix asciiLowerCase sampleRequest
                {| ApiKeySource.type := Header; ApiKeySource.name := js "Authorization";
                   ApiKeySource.prefix := Some (js "ApiKey ") |}
                (js "ApiKey ") (js "ApiKey my-secret")) as [Hstrip _];
      [reflexivity | vm_compute; reflexivity | discriminate |].
    exact (Hstrip (js "my-secret") eq_refl). }
  split; [|split; [reflexivity|]].
  { destruct (extractFromSource_prefix asciiLowerCase sampleRequest
                {| ApiKeySource.type := Header; ApiKeySource.name := js "Authorization";
                   ApiKeySource.prefix := Some (js "Bearer ") |}
                (js "Bearer ") (js "ApiKey my-secret")) as [_ Hkeep];
      [reflexivity | vm_compute; reflexivity | discriminate |].
    apply Hkeep. intros rest. discriminate. }
  split; [|split; [reflexivity|]].
  { destruct (extractFromSource_prefix asciiLowerCase paddedRequest
                {| ApiKeySource.type := Header; ApiKeySource.name := js "Authorization";
                   ApiKeySource.prefix := Some (js "ApiKey ") |}
                (js "ApiKey ") (js "ApiKey   my-secret  ")) as [Hstrip _];
      [reflexivity | vm_compute; reflexivity | discriminate |].
    exact (Hstrip (js "  my-secret  ") eq_refl). }
  split; [|reflexivity].
  destruct (extractFromSource_prefix asciiLowerCase paddedRequest
              {| ApiKeySource.type := Header; ApiKeySource.name := js "Authorization";
                 ApiKeySource.prefix := Some (js "Bearer ") |}
              (js "Bearer ") (js "ApiKey   my-secret  ")) as [_ Hkeep];
    [reflexivity | vm_compute; reflexivity | discriminate |].
  apply Hkeep. intros rest. discriminate.
Defined.

Lemma createGuard_missing_key_witness :
  extractApiKey asciiLowerCase bareRequest
    (sources (sampleOptions (sampleResult true []))) = Normal None
  ∧ invoke (createGuard asciiLowerCase (sampleOptions (sampleResult true []))
              ApiKeyGuardOptions.empty) bareRequest
    = (Throw (ThrownApiKeyError new_MissingApiKeyError),
       {| st_request := bareRequest; st_calls := [] |}).
Proof.
  split; [reflexivity|].
  destruct (createGuard_missing_key asciiLowerCase (sampleOptions (sampleResult true []))
              ApiKeyGuardOptions.empty bareRequest eq_refl) as (_ & Hraise & _).
  exact (proj1 (Hraise eq_refl)).
Defined.




Lemma timingSafeCompare_spec_witness :
  is_jsstring (js "short") ∧ is_jsstring (js "longstring")
  ∧ timingSafeCompare (JsString (js "short")) (JsString (js "longstring")) = Some false.
Proof.
  assert (H1 : is_jsstring (js "short")) by (repeat constructor).
  assert (H2 : is_jsstring (js "longstring")) by (repeat constructor).
  split; [exact H1|]. split; [exact H2|].
  destruct (timingSafeCompare_spec (js "short") (js "longstring") H1 H2)
    as (_ & _ & _ & Hlength & _).
  apply Hlength. vm_compute. discriminate.
Defined.

(** ** The further properties on sample data *)

Lemma validateScopes_provided_set_witness :
  validateScopes [js "read"; js "write"; js "read"] (Some [js "admin"; js "read"]) None
  = validateScopes [js "write"; js "read"] (Some [js "admin"; js "read"]) None.
Proof.
  apply validateScopes_provided_set. vm_compute. reflexivity.
Defined.

Lemma validateScopes_monotone_witness :
  ScopeValidationResult.valid
    (validateScopes [js "read"] (Some [js "read"]) (Some [js "read"; js "admin"])) = true
  ∧ ScopeValidationResult.valid
      (validateScopes [js "write"; js "read"] (Some [js "read"])
         (Some [js "read"; js "admin"])) = true.
Proof.
  split; [reflexivity|].
  apply (validateScopes_monotone [js "read"]); [|reflexivity].
  intros s Hs. apply elem_of_cons. by right.
Defined.

Lemma validateScopes_missing_sound_witness :
  ∃ missing,
    ScopeValidationResult.missing
      (validateScopes [js "read"] (Some [js "read"; js "write"; js "admin"]) None)
    = Some missing
    ∧ missing ≠ [].
Proof.
  destruct (validateScopes_missing_sound [js "read"]
              (Some [js "read"; js "write"; js "admin"]) None eq_refl)
    as (missing & Hmissing & Hne & _).
  by exists missing.
Defined.

(** The default message and the same message given in full. *)
Lemma toJSON_injective_witness :
  toJSON (new_InvalidApiKeyError None)
  = toJSON (new_InvalidApiKeyError (Some (js "Invalid API key")))
  ∧ new_InvalidApiKeyError None = new_InvalidApiKeyError (Some (js "Invalid API key")).
Proof.
  split; [reflexivity|].
  apply toJSON_injective; [constructor | constructor | reflexivity].
Defined.



(** The default length, 32, is eight groups of four characters: two
    sources that give the same key agree on the 24 bytes drawn. *)
Lemma generateApiKey_keeps_entropy_witness :
  generateApiKey MAX_STRING_LENGTH sampleEntropy
    {| GenerateOptions.prefix := None; GenerateOptions.length := Some 32%Z |}
  = generateApiKey MAX_STRING_LENGTH otherEntropy
      {| GenerateOptions.prefix := None; GenerateOptions.length := Some 32%Z |}
  ∧ ∀ i, (i < 24)%nat → sampleEntropy i = otherEntropy i.
Proof.
  assert (Hsame : generateApiKey MAX_STRING_LENGTH sampleEntropy
                    {| GenerateOptions.prefix := None;
                       GenerateOptions.length := Some (4 * Z.of_nat 8)%Z |}
                  = generateApiKey MAX_STRING_LENGTH otherEntropy
                      {| GenerateOptions.prefix := None;
                         GenerateOptions.length := Some (4 * Z.of_nat 8)%Z |})
    by (vm_compute; reflexivity).
  split; [exact Hsame|].
  apply (generateApiKey_keeps_entropy MAX_STRING_LENGTH sampleEntropy otherEntropy None 8).
  - intros i. apply N.mod_lt. discriminate.
  - intros i. unfold otherEntropy. destruct (i <? 24)%nat; [|reflexivity].
    apply N.mod_lt. discriminate.
  - vm_compute. discriminate.
  - exact Hsame.
Defined.

Lemma extractApiKey_trimmed_witness :
  extractApiKey asciiLowerCase blankHeaderRequest
    [ {| ApiKeySource.type := Query; ApiKeySource.name := js "api_key";
         ApiKeySource.prefix := None |} ]
  = Normal (Some (js "query-key"))
  ∧ js "query-key" ≠ [].
Proof.
  split; [reflexivity|].
  exact (proj1 (extractApiKey_trimmed asciiLowerCase blankHeaderRequest
                  [ {| ApiKeySource.type := Query; ApiKeySource.name := js "api_key";
                       ApiKeySource.prefix := None |} ]
                  (js "query-key") eq_refl)).
Defined.

(** The blank header is passed over and the query string is read. *)
Lemma extractApiKey_skips_blank_witness :
  let fromHeader := {| ApiKeySource.type := Header; ApiKeySource.name := js "X-API-Key";
                       ApiKeySource.prefix := None |} in
  let fromQuery := {| ApiKeySource.type := Query; ApiKeySource.name := js "api_key";
                      ApiKeySource.prefix := None |} in
  extractApiKey asciiLowerCase blankHeaderRequest [fromHeader; fromQuery]
  = extractApiKey asciiLowerCase blankHeaderRequest [fromQuery].
Proof.
  cbn zeta.
  apply (extractApiKey_skips_blank asciiLowerCase blankHeaderRequest _ _ (js "   "));
    [reflexivity|].
  left. by repeat constructor.
Defined.

Lemma createGuard_callback_exception_witness :
  let outcome := invoke (createGuard asciiLowerCase throwingOptions ApiKeyGuardOptions.empty)
                   sampleRequest in
  shouldAllowAnonymous throwingOptions ApiKeyGuardOptions.empty = true
  ∧ outcome.1 = Throw (ThrownValue (JsString (js "database down")))
  ∧ st_request outcome.2 = sampleRequest.
Proof.
  cbn zeta. split; [reflexivity|].
  destruct (createGuard_callback_exception asciiLowerCase throwingOptions
              ApiKeyGuardOptions.empty sampleRequest (js "rw-only-key")
              (ThrownValue (JsString (js "database down"))) eq_refl (or_introl eq_refl))
    as (Hthrows & Hrequest & _).
  split; [exact Hthrows | exact Hrequest].
Defined.

Lemma createGuard_handler_errors_witness :
  CallErrorHandler new_MissingApiKeyError
    ∈ st_calls (invoke (createGuard asciiLowerCase (handledOptions (sampleResult true []))
                          ApiKeyGuardOptions.empty) bareRequest).2
  ∧ statusCode new_MissingApiKeyError = 401%Z.
Proof.
  assert (Hcalled : CallErrorHandler new_MissingApiKeyError
                      ∈ st_calls (invoke (createGuard asciiLowerCase
                                            (handledOptions (sampleResult true []))
                                            ApiKeyGuardOptions.empty) bareRequest).2)
    by (change (CallErrorHandler new_MissingApiKeyError
                  ∈ [CallErrorHandler new_MissingApiKeyError]); left).
  split; [exact Hcalled|].
  destruct (createGuard_handler_errors asciiLowerCase _ _ _ _ Hcalled)
    as [[_ Hstatus] | [[_ Hstatus] | [Hcode _]]]; [exact Hstatus | exact Hstatus |].
  discriminate Hcode.
Defined.


(** A rejected request on a plugin with a handler: the guard returns. *)
Lemma createGuard_handled_returns_witness :
  (invoke (createGuard asciiLowerCase (handledOptions (sampleResult false []))
             ApiKeyGuardOptions.empty) sampleRequest).1 = Normal tt.
Proof.
  apply (createGuard_handled_returns asciiLowerCase (handledOptions (sampleResult false []))
           ApiKeyGuardOptions.empty sampleRequest (fun _ _ => Normal tt)).
  - reflexivity.
  - intros error. reflexivity.
  - intros key. exists (sampleResult false []). split; [reflexivity | exact I].
Defined.



Lemma fastifyApiKeyPlugin_once_witness :
  ∃ fastify',
    fastifyApiKeyPlugin (sampleOptions (sampleResult true [])) freshInstance = Some fastify'
    ∧ fastifyApiKeyPlugin (handledOptions (sampleResult true [])) fastify' = None.
Proof.
  destruct (fastifyApiKeyPlugin (sampleOptions (sampleResult true [])) freshInstance)
    as [fastify'|] eqn:Hfirst; [|vm_compute in Hfirst; discriminate].
  exists fastify'. split; [reflexivity|].
  exact (fastifyApiKeyPlugin_once _ (handledOptions (sampleResult true [])) _ _ Hfirst).
Defined.
